(** * Telegram Desktop: history view elements and the intro wizard

    A shallow embedding of
    - [Telegram/SourceFiles/history/view/history_view_element.cpp]
      (namespace [HistoryView]: selection shifting, the [Element] view
      object, its grouping, its attach-to-previous and date bookkeeping);
    - [Telegram/SourceFiles/intro/introwidget.h]
      ([Intro::Widget::getStep]).

    Objects that the C++ code reaches through pointers live in finite
    maps keyed by their address, so that two pointers to one object see
    the same mutations.  [Expects], [Assert] and [Ensures] abort the
    program when their condition is false; a method is a function from a
    world to either a result with the next world or the failure that
    stopped it.  What the two files take from headers outside them (the
    values of the flags, the date and media classes, the global
    selection functions) is a parameter of the development. *)

From Stdlib Require Import ZArith Lia Bool List.
From stdpp Require Import base option gmap list.

Local Open Scope Z_scope.

(** ** Selections ([UnshiftItemSelection], [ShiftItemSelection]) *)

Module Selection.

(** [uint16] values, and the implicit conversion of an [int] argument to
  a [uint16] parameter. *)
Definition to_uint16 (n : Z) : Z := n mod 65536.

(** [struct TextSelection { uint16 from; uint16 to; }]. *)
Record TextSelection := mkSelection { from : Z; to : Z }.

#[global] Instance TextSelection_eq_dec : EqDecision TextSelection.
Proof. solve_decision. Defined.

Section Shift.
(** Declared elsewhere ([ui/text/text.h]): the constant
    [FullSelection], the global [::unshiftSelection] and
    [::shiftSelection], and the class [Text] with its [length()]. *)
Variable FullSelection : TextSelection.
Variables unshiftSelection shiftSelection : TextSelection -> Z -> TextSelection.
Variable Text : Type.
Variable Text_length : Text -> Z.

Definition UnshiftItemSelection (selection : TextSelection) (byLength : Z)
  : TextSelection :=
  if decide (selection = FullSelection)
  then selection
  else unshiftSelection selection byLength.

Definition ShiftItemSelection (selection : TextSelection) (byLength : Z)
  : TextSelection :=
  if decide (selection = FullSelection)
  then selection
  else shiftSelection selection byLength.

(** The overloads taking [const Text &byText]: [byText.length()] is
    passed where a [uint16] is expected. *)
Definition UnshiftItemSelection_Text (selection : TextSelection) (byText : Text)
  : TextSelection :=
  UnshiftItemSelection selection (to_uint16 (Text_length byText)).

Definition ShiftItemSelection_Text (selection : TextSelection) (byText : Text)
  : TextSelection :=
  ShiftItemSelection selection (to_uint16 (Text_length byText)).
End Shift.

End Selection.

(** ** The intro wizard's step history ([Intro::Widget::getStep]) *)

Module Intro.

(** What an indexed read does: [QVector::at] is only defined for
  [0 <= i < size()]. *)
Inductive Access (A : Type) : Type :=
| Read (a : A)
| AssertionFailed
| IndexOutOfRange (i : Z).
Arguments Read {A} a.
Arguments AssertionFailed {A}.
Arguments IndexOutOfRange {A} i.

(** The values of [int]: 32 bits in two's complement.  An [int]
    expression whose value leaves this range wraps around, as it does
    in the compiled code. *)
Definition INT_MIN : Z := -2147483648.
Definition INT_MAX : Z := 2147483647.

Definition is_int (z : Z) : Prop := INT_MIN <= z <= INT_MAX.

Definition to_int (z : Z) : Z := (z + 2147483648) mod 4294967296 - 2147483648.

Section Steps.
Variable Step : Type.

(** [_stepHistory.size()], an [int]: a [QVector] holds at most
    [INT_MAX] elements. *)
Definition size (_stepHistory : list Step) : Z := Z.of_nat (length _stepHistory).

(** [_stepHistory.at(i)]. *)
Definition at_ (_stepHistory : list Step) (i : Z) : Access Step :=
  if (0 <=? i) && (i <? size _stepHistory)
  then match _stepHistory !! Z.to_nat i with
       | Some s => Read s
       | None => IndexOutOfRange i
       end
  else IndexOutOfRange i.

(** The condition of [Assert(_stepHistory.size() + skip > 0)], the sum
    being an [int]. *)
Definition getStep_asserted (_stepHistory : list Step) (skip : Z) : bool :=
  to_int (size _stepHistory + skip) >? 0.

(** The index [_stepHistory.size() - skip - 1] that [getStep] reads,
    an [int] after each of the two subtractions. *)
Definition getStep_index (_stepHistory : list Step) (skip : Z) : Z :=
  to_int (to_int (size _stepHistory - skip) - 1).

Definition getStep (_stepHistory : list Step) (skip : Z) : Access Step :=
  if getStep_asserted _stepHistory skip
  then at_ _stepHistory (getStep_index _stepHistory skip)
  else AssertionFailed.
End Steps.

Arguments size {Step} _stepHistory.
Arguments at_ {Step} _stepHistory i.
Arguments getStep_asserted {Step} _stepHistory skip.
Arguments getStep_index {Step} _stepHistory skip.
Arguments getStep {Step} _stepHistory skip.

End Intro.

(** ** History view elements ([HistoryView::Element]) *)

Module HistoryView.

(** A new message from the same sender is attached to previous within
    15 minutes. *)
Definition kAttachMessageToPreviousSecondsDelta : Z := 900.

(** Addresses of heap objects (elements, history items, blocks, peers,
    histories). *)
Abbreviation ptr := positive (only parsing).

(** [enum class Element::Flag], declared in the header.  Its enumerators
    are bit masks inside [_flags]; the header gives their values, which
    are taken here as any non-zero, pairwise disjoint masks. *)
Inductive Flag := NeedsResize | AttachedToPrevious | AttachedToNext | HiddenByGroup.

#[global] Instance Flag_eq_dec : EqDecision Flag.
Proof. solve_decision. Defined.

Class FlagValues := {
  value : Flag -> Z;
  (** the in-class initialiser of [_flags] *)
  initialFlags : Z;
  value_nonzero : forall f, value f <> 0;
  value_disjoint : forall f g, f <> g -> Z.land (value f) (value g) = 0
}.

(** [QDateTime] and [QDate] of the toolkit: [a.secsTo(b)], [a.date()]
    and the comparison of two calendar dates. *)
Class DateApi := {
  QDateTime : Type;
  QDate : Type;
  QDate_eq_dec :: EqDecision QDate;
  secsTo : QDateTime -> QDateTime -> Z;
  date_of : QDateTime -> QDate
}.

(** The media classes, declared in [history_media.h],
    [history_media_grouped.h] and [data_media_types.h].  A non-const
    virtual call returns its result together with the receiver as the
    call left it. *)
Class MediaApi := {
  DataMedia : Type;
  HistoryMedia : Type;
  (** [media->createView(element)] *)
  createView : DataMedia -> ptr -> HistoryMedia;
  (** [media->takeLastFromGroup()], a [std::unique_ptr<HistoryMedia>] *)
  takeLastFromGroup : HistoryMedia -> option HistoryMedia * HistoryMedia;
  (** [media->canBeGrouped()] *)
  canBeGrouped : HistoryMedia -> bool;
  (** [media->applyGroup(others)] *)
  applyGroup : HistoryMedia -> list ptr -> bool * HistoryMedia;
  (** [std::make_unique<HistoryGroupedMedia>(element, others)] *)
  HistoryGroupedMedia : ptr -> list ptr -> HistoryMedia
}.

(** [enum class Context]; this file only names [Context::History]. *)
Inductive Context := History | OtherContext.

#[global] Instance Context_eq_dec : EqDecision Context.
Proof. solve_decision. Defined.

(** The [Group] runtime component of an element.  [groupId] is a
    [MessageGroupId], null when it is [0]. *)
Module Group.
Record t := mk {
  groupId : Z;
  leader : option ptr;
  others : list ptr
}.

(** A default-constructed component, as [AddComponents] makes it. *)
Definition default : t :=
  {| groupId := 0; leader := None; others := [] |}.

Definition set_groupId (g : t) (id : Z) : t :=
  {| groupId := id; leader := leader g; others := others g |}.
Definition set_leader (g : t) (l : option ptr) : t :=
  {| groupId := groupId g; leader := l; others := others g |}.
Definition set_others (g : t) (o : list ptr) : t :=
  {| groupId := groupId g; leader := leader g; others := o |}.
End Group.

(** Calls into the session data, into the history and into the virtual
    methods of the derived views, which this file only issues: they are
    recorded in the order they are made. *)
Inductive Request :=
| registerItemView (view : ptr)
| requestViewResize (view : ptr)
| requestItemRepaint (item : ptr)
| setHasPendingResizedItems (history : ptr)
| invalidateChatsListEntry (item : ptr)
| setMainView (item view : ptr)
| initDimensions (view : ptr)
| performCountCurrentSize (view : ptr) (newWidth : Z).

(** Why a run stopped. *)
Inductive Failure :=
| ExpectsFailed | AssertFailed | EnsuresFailed | InvalidPointer | InvalidIndex.

Section Model.
Context {FV : FlagValues} {DA : DateApi} {MA : MediaApi}.

(** The [HistoryMessageDate] component of an item, with the date that
    [init] was given. *)
Record HistoryMessageDate := mkDateComponent { inited : option QDateTime }.

(** What this file reads from a [HistoryItem], and the runtime
    components it tests, adds and removes. *)
Record HistoryItem := mkItem {
  isPost : bool;
  serviceMsg : bool;            (* [serviceMsg()] is not null *)
  isEmpty : bool;
  isLogEntry : bool;
  date : QDateTime;
  from : ptr;
  senderOriginal : ptr;
  history_peer_isSelf : bool;   (* [history()->peer->isSelf()] *)
  _history : ptr;
  media_of_item : option DataMedia;
  groupId_of_item : Z;
  Get_HistoryMessageDate : option HistoryMessageDate;
  Has_HistoryMessageUnreadBar : bool;
  Has_HistoryMessageForwarded : bool
}.

Definition set_HistoryMessageDate (i : HistoryItem) (c : option HistoryMessageDate)
  : HistoryItem :=
  {| isPost := isPost i; serviceMsg := serviceMsg i; isEmpty := isEmpty i;
     isLogEntry := isLogEntry i; date := date i; from := from i; senderOriginal := senderOriginal i;
     history_peer_isSelf := history_peer_isSelf i; _history := _history i;
     media_of_item := media_of_item i; groupId_of_item := groupId_of_item i;
     Get_HistoryMessageDate := c;
     Has_HistoryMessageUnreadBar := Has_HistoryMessageUnreadBar i;
     Has_HistoryMessageForwarded := Has_HistoryMessageForwarded i |}.

Definition Has_HistoryMessageDate (i : HistoryItem) : bool :=
  bool_decide (is_Some (Get_HistoryMessageDate i)).

Record Element := mkElement {
  _data : ptr;
  _media : option HistoryMedia;
  _y : Z;
  _context : Context;
  _block : option ptr;
  _flags : Z;
  _indexInBlock : Z;
  Get_Group : option Group.t
}.

Definition set_media (e : Element) (m : option HistoryMedia) : Element :=
  {| _data := _data e; _media := m; _y := _y e; _context := _context e;
     _block := _block e; _flags := _flags e; _indexInBlock := _indexInBlock e;
     Get_Group := Get_Group e |}.
Definition set_flags (e : Element) (f : Z) : Element :=
  {| _data := _data e; _media := _media e; _y := _y e; _context := _context e;
     _block := _block e; _flags := f; _indexInBlock := _indexInBlock e;
     Get_Group := Get_Group e |}.
Definition set_y (e : Element) (y : Z) : Element :=
  {| _data := _data e; _media := _media e; _y := y; _context := _context e;
     _block := _block e; _flags := _flags e; _indexInBlock := _indexInBlock e;
     Get_Group := Get_Group e |}.
Definition set_block (e : Element) (b : option ptr) : Element :=
  {| _data := _data e; _media := _media e; _y := _y e; _context := _context e;
     _block := b; _flags := _flags e; _indexInBlock := _indexInBlock e;
     Get_Group := Get_Group e |}.
Definition set_indexInBlock (e : Element) (index : Z) : Element :=
  {| _data := _data e; _media := _media e; _y := _y e; _context := _context e;
     _block := _block e; _flags := _flags e; _indexInBlock := index;
     Get_Group := Get_Group e |}.
Definition set_Group (e : Element) (g : option Group.t) : Element :=
  {| _data := _data e; _media := _media e; _y := _y e; _context := _context e;
     _block := _block e; _flags := _flags e; _indexInBlock := _indexInBlock e;
     Get_Group := g |}.

(** [HistoryBlock]: its [messages] and what [previousBlock()] returns. *)
Record HistoryBlock := mkBlock {
  messages : list ptr;
  previousBlock : option ptr
}.

Record World := mkWorld {
  elements : gmap ptr Element;
  items : gmap ptr HistoryItem;
  blocks : gmap ptr HistoryBlock;
  requests : list Request
}.

Inductive Outcome (A : Type) : Type :=
| Done (a : A) (w : World)
| Abort (f : Failure).
#[global] Arguments Done {A} a w.
#[global] Arguments Abort {A} f.

Definition Run (A : Type) : Type := World -> Outcome A.

#[global] Instance Run_ret : MRet Run := fun A a w => Done a w.
#[global] Instance Run_bind : MBind Run := fun A B k m w =>
  match m w with
  | Done a w' => k a w'
  | Abort f => Abort f
  end.

Definition stop {A} (f : Failure) : Run A := fun _ => Abort f.

Definition check (f : Failure) (b : bool) : Run unit :=
  if b then mret tt else stop f.
Definition Expects : bool -> Run unit := check ExpectsFailed.
Definition Assert : bool -> Run unit := check AssertFailed.
Definition Ensures : bool -> Run unit := check EnsuresFailed.

(** Reading through a pointer, an index or a nullable value. *)
Definition load {A} (find : World -> option A) : Run A := fun w =>
  match find w with
  | Some a => Done a w
  | None => Abort InvalidPointer
  end.
Definition deref_element (p : ptr) : Run Element := load (fun w => elements w !! p).
Definition deref_item (p : ptr) : Run HistoryItem := load (fun w => items w !! p).
Definition deref_block (p : ptr) : Run HistoryBlock := load (fun w => blocks w !! p).

Definition store_element (p : ptr) (e : Element) : Run unit := fun w =>
  Done tt {| elements := <[p := e]> (elements w); items := items w;
             blocks := blocks w; requests := requests w |}.
Definition store_item (p : ptr) (i : HistoryItem) : Run unit := fun w =>
  Done tt {| elements := elements w; items := <[p := i]> (items w);
             blocks := blocks w; requests := requests w |}.
Definition call (r : Request) : Run unit := fun w =>
  Done tt {| elements := elements w; items := items w;
             blocks := blocks w; requests := requests w ++ [r] |}.

Definition update_element (p : ptr) (f : Element -> Element) : Run unit :=
  e ← deref_element p; store_element p (f e).
Definition update_Group (p : ptr) (f : Group.t -> Group.t) : Run unit :=
  update_element p (fun e => set_Group e (f <$> Get_Group e)).

(** [_flags & f], [_flags |= f], [_flags &= ~f]. *)
Definition hasFlag (flags : Z) (f : Flag) : bool :=
  negb (Z.land flags (value f) =? 0).
Definition addFlag (flags : Z) (f : Flag) : Z := Z.lor flags (value f).
Definition removeFlag (flags : Z) (f : Flag) : Z :=
  Z.land flags (Z.lnot (value f)).

Definition data (this : ptr) : Run ptr :=
  e ← deref_element this; mret (_data e).

Definition media (this : ptr) : Run (option HistoryMedia) :=
  e ← deref_element this; mret (_media e).

Definition setPendingResize (this : ptr) : Run unit :=
  update_element this (fun e => set_flags e (addFlag (_flags e) NeedsResize));;
  e ← deref_element this;
  if decide (_context e = History) then
    d ← data this;
    i ← deref_item d;
    call (setHasPendingResizedItems (_history i))
  else mret tt.

Definition pendingResize (this : ptr) : Run bool :=
  e ← deref_element this; mret (hasFlag (_flags e) NeedsResize).
Definition isAttachedToPrevious (this : ptr) : Run bool :=
  e ← deref_element this; mret (hasFlag (_flags e) AttachedToPrevious).
Definition isAttachedToNext (this : ptr) : Run bool :=
  e ← deref_element this; mret (hasFlag (_flags e) AttachedToNext).
Definition isHiddenByGroup (this : ptr) : Run bool :=
  e ← deref_element this; mret (hasFlag (_flags e) HiddenByGroup).

(** [Get<Group>()], a pointer to the component or null. *)
Definition Get_Group_of (this : ptr) : Run (option Group.t) :=
  e ← deref_element this; mret (Get_Group e).

(** Reading [group-> ...] after [Assert(group != nullptr)]. *)
Definition group_of (this : ptr) : Run Group.t :=
  g ← Get_Group_of this;
  match g with
  | Some g => mret g
  | None => stop InvalidPointer
  end.

(** *** Grouping *)

(** The body of [makeGroupMember] between its [Expects] and its
    [Ensures]. *)
Definition makeGroupMember_body (this leader : ptr) : Run unit :=
  g ← Get_Group_of this;
  Assert (bool_decide (is_Some g));;
  group ← group_of this;
  if decide (Group.leader group = Some this) then
    m ← media this;
    match m with
    | Some m =>
      match takeLastFromGroup m with
      | (Some single, _) => update_element this (fun e => set_media e (Some single))
      | (None, m') => update_element this (fun e => set_media e (Some m'))
      end
    | None => mret tt
    end;;
    update_element this (fun e => set_flags e (addFlag (_flags e) HiddenByGroup));;
    call (requestViewResize this);;
    update_Group this (fun g => Group.set_leader g (Some leader));;
    update_Group this (fun g => Group.set_others g [])
  else if decide (Group.leader group <> Some leader) then
    update_Group this (fun g => Group.set_leader g (Some leader))
  else mret tt.

Definition makeGroupMember (this leader : ptr) : Run unit :=
  Expects (bool_decide (leader <> this));;
  makeGroupMember_body this leader;;
  hidden ← isHiddenByGroup this;
  Ensures hidden;;
  group ← group_of this;
  Ensures (bool_decide (Group.others group = [])).

Definition resetGroupMedia (this : ptr) (others : list ptr) : Run unit :=
  m ← media this;
  (if negb (bool_decide (others = [])) then
     update_element this (fun e => set_media e (Some (HistoryGroupedMedia this others)))
   else match m with
        | Some m =>
          update_element this (fun e => set_media e (fst (takeLastFromGroup m)))
        | None => mret tt
        end);;
  call (requestViewResize this).

(** [!_media || !_media->applyGroup(group->others)]: whether the media
    cannot take the group; the call leaves its receiver in [_media]. *)
Definition cannot_applyGroup (this : ptr) (others : list ptr) : Run bool :=
  m ← media this;
  match m with
  | None => mret true
  | Some m =>
    let '(applied, m') := applyGroup m others in
    update_element this (fun e => set_media e (Some m'));;
    mret (negb applied)
  end.

Definition makeGroupLeader_body (this : ptr) (others : list ptr) : Run unit :=
  g ← Get_Group_of this;
  Assert (bool_decide (is_Some g));;
  group ← group_of this;
  let leaderChanged := bool_decide (Group.leader group <> Some this) in
  (if leaderChanged then
     update_Group this (fun g => Group.set_leader g (Some this));;
     update_element this (fun e => set_flags e (removeFlag (_flags e) HiddenByGroup));;
     call (requestViewResize this)
   else mret tt);;
  update_Group this (fun g => Group.set_others g others);;
  group ← group_of this;
  cannot ← cannot_applyGroup this (Group.others group);
  if (cannot : bool) then
    resetGroupMedia this (Group.others group);;
    d ← data this;
    call (invalidateChatsListEntry d)
  else mret tt.

Definition makeGroupLeader (this : ptr) (others : list ptr) : Run unit :=
  makeGroupLeader_body this others;;
  hidden ← isHiddenByGroup this;
  Ensures (negb hidden).

Definition groupIdValidityChanged (this : ptr) : Run bool :=
  g ← Get_Group_of this;
  if bool_decide (is_Some g) then
    m ← media this;
    if match m with Some m => canBeGrouped m | None => false end then
      mret false
    else
      (* RemoveComponents(Group::Bit()) *)
      update_element this (fun e => set_Group e None);;
      call (requestViewResize this);;
      mret true
  else mret false.

Definition validateGroupId (this : ptr) : Run unit :=
  (* Just ignore the result. *)
  groupIdValidityChanged this;;
  mret tt.

Definition initGroup (this : ptr) : Run unit :=
  d ← data this;
  i ← deref_item d;
  let groupId := groupId_of_item i in
  if negb (groupId =? 0) then
    (* AddComponents(Group::Bit()) *)
    update_element this (fun e =>
      match Get_Group e with
      | Some _ => e
      | None => set_Group e (Some Group.default)
      end);;
    update_Group this (fun g => Group.set_groupId g groupId);;
    update_Group this (fun g => Group.set_leader g (Some this))
  else mret tt.

(** [Element::Element(data, context)], building the object at the
    address [this] that the allocation returned.  The members without
    an initialiser in the constructor take their in-class defaults. *)
Definition Element_new (this : ptr) (data : ptr) (context : Context) : Run unit :=
  i ← deref_item data;
  store_element this
    {| _data := data;
       _media := (fun m => createView m this) <$> media_of_item i;
       _y := 0;
       _context := context;
       _block := None;
       _flags := initialFlags;
       _indexInBlock := -1;
       Get_Group := None |};;
  call (registerItemView this);;
  initGroup this.

(** [countCurrentSize(newWidth)]; the size that
    [performCountCurrentSize] computes is left out. *)
Definition countCurrentSize (this : ptr) (newWidth : Z) : Run unit :=
  e ← deref_element this;
  (if hasFlag (_flags e) NeedsResize then
     update_element this (fun e => set_flags e (removeFlag (_flags e) NeedsResize));;
     call (initDimensions this)
   else mret tt);;
  call (performCountCurrentSize this newWidth).

(** *** Position in the blocks *)

Definition setY (this : ptr) (y : Z) : Run unit :=
  update_element this (fun e => set_y e y).

Definition attachToBlock (this : ptr) (block : ptr) (index : Z) : Run unit :=
  d ← data this;
  i ← deref_item d;
  Expects (negb (isLogEntry i));;
  e ← deref_element this;
  Expects (bool_decide (_block e = None));;
  Expects (_indexInBlock e <? 0);;
  Expects (0 <=? index);;
  update_element this (fun e => set_block e (Some block));;
  update_element this (fun e => set_indexInBlock e index);;
  call (setMainView d this).

Definition setIndexInBlock (this : ptr) (index : Z) : Run unit :=
  e ← deref_element this;
  Expects (negb (bool_decide (_block e = None)));;
  Expects (0 <=? index);;
  update_element this (fun e => set_indexInBlock e index).

(** [v[i]] on a [std::vector], defined for [0 <= i < v.size()] only. *)
Definition index {A} (v : list A) (i : Z) : Run A :=
  if 0 <=? i then
    match v !! Z.to_nat i with
    | Some a => mret a
    | None => stop InvalidIndex
    end
  else stop InvalidIndex.

(** [v.back()], defined for a non-empty vector only. *)
Definition back {A} (v : list A) : Run A :=
  match last v with
  | Some a => mret a
  | None => stop InvalidIndex
  end.

Definition previousInBlocks (this : ptr) : Run (option ptr) :=
  e ← deref_element this;
  match _block e with
  | Some b =>
    if 0 <=? _indexInBlock e then
      if 0 <? _indexInBlock e then
        blk ← deref_block b;
        p ← index (messages blk) (_indexInBlock e - 1);
        mret (Some p)
      else
        blk ← deref_block b;
        match previousBlock blk with
        | Some pb =>
          previous ← deref_block pb;
          Assert (negb (bool_decide (messages previous = [])));;
          p ← back (messages previous);
          mret (Some p)
        | None => mret None
        end
    else mret None
  | None => mret None
  end.

(** *** Attaching to the previous message *)

(** The local [possible] of [computeIsAttachToPrevious], over the two
    items that the [not_null] pointers lead to. *)
Definition possible (item prev : HistoryItem) : bool :=
  negb (isPost item) && negb (isPost prev)
  && negb (serviceMsg item) && negb (serviceMsg prev)
  && negb (isEmpty item) && negb (isEmpty prev)
  && (Z.abs (secsTo (date prev) (date item)) <? kAttachMessageToPreviousSecondsDelta).

Definition computeIsAttachToPrevious (this previous : ptr) : Run bool :=
  d ← data this;
  item ← deref_item d;
  if negb (Has_HistoryMessageDate item) && negb (Has_HistoryMessageUnreadBar item) then
    pd ← data previous;
    prev ← deref_item pd;
    if possible item prev then
      if history_peer_isSelf item then
        mret (bool_decide (senderOriginal prev = senderOriginal item)
              && bool_decide (Has_HistoryMessageForwarded prev
                              = Has_HistoryMessageForwarded item))
      else
        mret (bool_decide (from prev = from item))
    else mret false
  else mret false.

Definition setAttachToNext (this : ptr) (attachToNext : bool) : Run unit :=
  e ← deref_element this;
  if attachToNext && negb (hasFlag (_flags e) AttachedToNext) then
    update_element this (fun e => set_flags e (addFlag (_flags e) AttachedToNext));;
    d ← data this;
    call (requestItemRepaint d)
  else if negb attachToNext && hasFlag (_flags e) AttachedToNext then
    update_element this (fun e => set_flags e (removeFlag (_flags e) AttachedToNext));;
    d ← data this;
    call (requestItemRepaint d)
  else mret tt.

Definition setAttachToPrevious (this : ptr) (attachToPrevious : bool) : Run unit :=
  e ← deref_element this;
  if attachToPrevious && negb (hasFlag (_flags e) AttachedToPrevious) then
    update_element this (fun e => set_flags e (addFlag (_flags e) AttachedToPrevious));;
    setPendingResize this
  else if negb attachToPrevious && hasFlag (_flags e) AttachedToPrevious then
    update_element this (fun e => set_flags e (removeFlag (_flags e) AttachedToPrevious));;
    setPendingResize this
  else mret tt.

Definition recountAttachToPreviousInBlocks (this : ptr) : Run unit :=
  previous ← previousInBlocks this;
  attachToPrevious ←
    match previous with
    | Some previous =>
      attachToPrevious ← computeIsAttachToPrevious this previous;
      setAttachToNext previous attachToPrevious;;
      mret attachToPrevious
    | None => mret false
    end;
  setAttachToPrevious this attachToPrevious.

(** *** The date separator *)

Definition setDisplayDate (this : ptr) (displayDate : bool) : Run unit :=
  d ← data this;
  i ← deref_item d;
  if displayDate && negb (Has_HistoryMessageDate i) then
    (* AddComponents(HistoryMessageDate::Bit()) *)
    store_item d (set_HistoryMessageDate i (Some {| inited := None |}));;
    (* Get<HistoryMessageDate>()->init(item->date) *)
    i ← deref_item d;
    store_item d (set_HistoryMessageDate i
      ((fun _ => {| inited := Some (date i) |}) <$> Get_HistoryMessageDate i));;
    setPendingResize this
  else if negb displayDate && Has_HistoryMessageDate i then
    store_item d (set_HistoryMessageDate i None);;
    setPendingResize this
  else mret tt.

(** The lambda that [recountDisplayDateInBlocks] passes on. *)
Definition displayDate_in_blocks (this : ptr) : Run bool :=
  d ← data this;
  i ← deref_item d;
  if isEmpty i then mret false
  else
    previous ← previousInBlocks this;
    match previous with
    | Some previous =>
      pd ← data previous;
      prev ← deref_item pd;
      mret (isEmpty prev
            || negb (bool_decide (date_of (date prev) = date_of (date i))))
    | None => mret true
    end.

Definition recountDisplayDateInBlocks (this : ptr) : Run unit :=
  displayDate ← displayDate_in_blocks this;
  setDisplayDate this displayDate.

(** Called only if there is no more next item. *)
Definition nextInBlocksChanged (this : ptr) : Run unit :=
  setAttachToNext this false.

(** *** Reading a world *)

(** The flags of the element at [p], and the item it shows. *)
Definition flags_at (w : World) (p : ptr) : option Z :=
  _flags <$> elements w !! p.
Definition item_at (w : World) (p : ptr) : option HistoryItem :=
  e ← elements w !! p; items w !! _data e.

(** A change of [_flags] that leaves every bit outside the mask of [f]
    (respectively outside the masks of [f] and [g]) as it was. *)
Definition outside_unchanged (f : Flag) (old new : Z) : Prop :=
  forall n, Z.testbit (value f) n = false -> Z.testbit new n = Z.testbit old n.
Definition outside_two_unchanged (f g : Flag) (old new : Z) : Prop :=
  forall n, Z.testbit (value f) n = false -> Z.testbit (value g) n = false ->
            Z.testbit new n = Z.testbit old n.

(** [!_media || !_media->applyGroup(others)] as a condition on the
    medium that the element holds. *)
Definition cannot_take_group (m : option HistoryMedia) (others : list ptr) : bool :=
  match m with
  | None => true
  | Some m => negb (fst (applyGroup m others))
  end.

(** An element is consistent with its group when it is hidden exactly
    if another element leads it, and then holds no members itself. *)
Definition group_consistent (this : ptr) (e : Element) : Prop :=
  forall g, Get_Group e = Some g ->
    (hasFlag (_flags e) HiddenByGroup = true <-> Group.leader g <> Some this)
    /\ (Group.leader g <> Some this -> Group.others g = []).
Definition all_consistent (w : World) : Prop :=
  forall p e, elements w !! p = Some e -> group_consistent p e.

(** A step that keeps, for every element of the later world, its group
    and whether it is hidden. *)
Definition groups_kept (w w' : World) : Prop :=
  forall p e', elements w' !! p = Some e' ->
    exists e, elements w !! p = Some e
              /\ Get_Group e' = Get_Group e
              /\ hasFlag (_flags e') HiddenByGroup = hasFlag (_flags e) HiddenByGroup.

Definition keeps_groups {A} (m : Run A) : Prop :=
  forall w a w', m w = Done a w' -> groups_kept w w'.

(** What the rest of the program does between two calls: it changes
    items and blocks, and leaves the elements to the calls below. *)
Definition environment (items' : gmap ptr HistoryItem)
    (blocks' : gmap ptr HistoryBlock) : Run unit := fun w =>
  Done tt {| elements := elements w; items := items';
             blocks := blocks'; requests := requests w |}.

(** The calls on elements that are modelled above, and the worlds that
    they and the environment lead to from a world without elements. *)
Inductive Call :=
| new_Element (this data : ptr) (context : Context)
| call_makeGroupMember (this leader : ptr)
| call_makeGroupLeader (this : ptr) (others : list ptr)
| call_setPendingResize (this : ptr)
| call_setAttachToNext (this : ptr) (attachToNext : bool)
| call_setAttachToPrevious (this : ptr) (attachToPrevious : bool)
| call_setDisplayDate (this : ptr) (displayDate : bool)
| call_recountAttachToPreviousInBlocks (this : ptr)
| call_recountDisplayDateInBlocks (this : ptr)
| call_nextInBlocksChanged (this : ptr)
| call_validateGroupId (this : ptr)
| call_countCurrentSize (this : ptr) (newWidth : Z)
| call_setY (this : ptr) (y : Z)
| call_attachToBlock (this block : ptr) (index : Z)
| call_setIndexInBlock (this : ptr) (index : Z)
| call_environment (items' : gmap ptr HistoryItem) (blocks' : gmap ptr HistoryBlock).

Definition run (c : Call) : Run unit :=
  match c with
  | new_Element this data context => Element_new this data context
  | call_makeGroupMember this leader => makeGroupMember this leader
  | call_makeGroupLeader this others => makeGroupLeader this others
  | call_setPendingResize this => setPendingResize this
  | call_setAttachToNext this b => setAttachToNext this b
  | call_setAttachToPrevious this b => setAttachToPrevious this b
  | call_setDisplayDate this b => setDisplayDate this b
  | call_recountAttachToPreviousInBlocks this => recountAttachToPreviousInBlocks this
  | call_recountDisplayDateInBlocks this => recountDisplayDateInBlocks this
  | call_nextInBlocksChanged this => nextInBlocksChanged this
  | call_validateGroupId this => validateGroupId this
  | call_countCurrentSize this newWidth => countCurrentSize this newWidth
  | call_setY this y => setY this y
  | call_attachToBlock this block index => attachToBlock this block index
  | call_setIndexInBlock this index => setIndexInBlock this index
  | call_environment items' blocks' => environment items' blocks'
  end.

Inductive reachable : World -> Prop :=
| reachable_start w : elements w = ∅ -> reachable w
| reachable_call w c w' : reachable w -> run c w = Done tt w' -> reachable w'.

Fixpoint run_all (cs : list Call) : Run unit :=
  match cs with
  | [] => mret tt
  | c :: cs => run c;; run_all cs
  end.

(** A step that leaves the blocks alone and, of every element, all but
    its [_flags]. *)
Definition only_flags_changed (w w' : World) : Prop :=
  blocks w' = blocks w
  /\ forall q, (fun e => set_flags e 0) <$> elements w' !! q
               = (fun e => set_flags e 0) <$> elements w !! q.

Definition changes_only_flags {A} (m : Run A) : Prop :=
  forall w a w', m w = Done a w' -> only_flags_changed w w'.

(** *** The rest of the element *)

(** [getFullGroup()]: the group that the pointer returned leads to, as
    it is when the call returns. *)
Definition getFullGroup (this : ptr) : Run (option Group.t) :=
  g ← Get_Group_of this;
  match g with
  | Some group =>
    if decide (Group.leader group = Some this) then mret (Some group)
    else match Group.leader group with
         | Some leader => Get_Group_of leader
         | None => stop InvalidPointer
         end
  | None => mret None
  end.

Definition previousInBlocksChanged (this : ptr) : Run unit :=
  recountDisplayDateInBlocks this;;
  recountAttachToPreviousInBlocks this.

Definition block (this : ptr) : Run (option ptr) :=
  e ← deref_element this; mret (_block e).

Definition indexInBlock (this : ptr) : Run Z :=
  e ← deref_element this;
  Expects (Bool.eqb (0 <=? _indexInBlock e) (negb (bool_decide (_block e = None))));;
  match _block e with
  | None => mret tt
  | Some b =>
    blk ← deref_block b;
    p ← index (messages blk) (_indexInBlock e);
    Expects (bool_decide (p = this))
  end;;
  mret (_indexInBlock e).

(** [v.front()], defined for a non-empty vector only. *)
Definition front {A} (v : list A) : Run A :=
  match v with
  | a :: _ => mret a
  | [] => stop InvalidIndex
  end.

(** What [nextBlock()] returns on the block at an address; like
    [previousBlock()] it is computed by the history, outside this
    file. *)
Variable nextBlock : ptr -> option ptr.

Definition nextInBlocks (this : ptr) : Run (option ptr) :=
  e ← deref_element this;
  match _block e with
  | Some b =>
    if 0 <=? _indexInBlock e then
      blk ← deref_block b;
      if _indexInBlock e + 1 <? Z.of_nat (length (messages blk)) then
        p ← index (messages blk) (_indexInBlock e + 1);
        mret (Some p)
      else
        match nextBlock b with
        | Some nb =>
          next ← deref_block nb;
          Assert (negb (bool_decide (messages next = [])));;
          p ← front (messages next);
          mret (Some p)
        | None => mret None
        end
    else mret None
  | None => mret None
  end.

(** [media->refreshParentId(element)], declared with the media classes:
    the receiver as the call leaves it. *)
Variable refreshParentId : HistoryMedia -> ptr -> HistoryMedia.

(** [refreshDataId()], which calls itself on the leader of the group.
    [depth] bounds the nesting of these calls; the result is [None]
    when the bound is reached before the outermost call has
    returned. *)
Fixpoint refreshDataId (depth : nat) (this : ptr) : Run (option unit) :=
  match depth with
  | O => mret None
  | S depth =>
    m ← media this;
    match m with
    | Some m =>
      update_element this (fun e => set_media e (Some (refreshParentId m this)));;
      g ← Get_Group_of this;
      match g with
      | Some group =>
        if decide (Group.leader group <> Some this) then
          match Group.leader group with
          | Some leader => refreshDataId depth leader
          | None => stop InvalidPointer
          end
        else mret (Some tt)
      | None => mret (Some tt)
      end
    | None => mret (Some tt)
    end
  end.

(** The blocks are in order when every element that records a block
    and an index stands there, stands nowhere else, the blocks are
    not empty, and [nextBlock()] and [previousBlock()] mirror each
    other. *)
Definition stands (w : World) (p b : ptr) (i : Z) : Prop :=
  0 <= i /\ exists blk, blocks w !! b = Some blk
                        /\ messages blk !! Z.to_nat i = Some p.

Record blocks_in_order (w : World) : Prop := {
  recorded_stands : forall p e b,
    elements w !! p = Some e -> _block e = Some b ->
    stands w p b (_indexInBlock e);
  stands_recorded : forall p b i,
    stands w p b i ->
    exists e, elements w !! p = Some e /\ _block e = Some b /\ _indexInBlock e = i;
  blocks_not_empty : forall b blk,
    blocks w !! b = Some blk -> messages blk <> [];
  next_previous : forall b n,
    is_Some (blocks w !! b) ->
    nextBlock b = Some n ->
    exists nblk, blocks w !! n = Some nblk /\ previousBlock nblk = Some b;
  previous_next : forall n nblk b,
    blocks w !! n = Some nblk -> previousBlock nblk = Some b ->
    is_Some (blocks w !! b) /\ nextBlock b = Some n
}.
End Model.

(** *** A concrete instance, to run the model

    Single-bit masks for the four flags, new elements needing a
    resize; dates as seconds since the epoch with days of 86400
    seconds; a medium is either the view of some data medium or a
    grouped view, every medium can be grouped, and a grouped view takes
    every group while a plain view takes only the empty one. *)
Module Sample.

#[export] Instance flags : FlagValues.
Proof.
  refine {| value := fun f => match f with
                             | NeedsResize => 1
                             | AttachedToPrevious => 2
                             | AttachedToNext => 4
                             | HiddenByGroup => 8
                             end;
            initialFlags := 1 |}.
  - intros []; discriminate.
  - intros [] []; intros; try reflexivity; congruence.
Defined.

#[export] Instance dates : DateApi :=
  {| QDateTime := Z; QDate := Z;
     secsTo := fun a b => b - a;
     date_of := fun a => a / 86400 |}.

Inductive Media :=
| Plain (source : positive) (parent : ptr)
| Grouped (parent : ptr) (parts : list ptr).

#[export] Instance medias : MediaApi :=
  {| DataMedia := positive; HistoryMedia := Media;
     createView := Plain;
     takeLastFromGroup := fun m =>
       match m with
       | Grouped parent parts =>
         match last parts with
         | Some p => (Some (Plain 1%positive p), m)
         | None => (None, m)
         end
       | Plain _ _ => (None, m)
       end;
     canBeGrouped := fun _ => true;
     applyGroup := fun m others =>
       match m with
       | Grouped parent _ => (true, Grouped parent others)
       | Plain _ _ => (bool_decide (others = []), m)
       end;
     HistoryGroupedMedia := Grouped |}.

(** Two messages of peer 7, five hundred seconds apart on one day, shown
    by the elements 1 and 2 of block 30; a third message of the same
    peer a day later, carrying group 5 and a photo, shown by element 3
    outside the blocks.  All three elements have been laid out once. *)
Definition message (date : Z) (groupId : Z) (media : option positive) : HistoryItem :=
  {| isPost := false; serviceMsg := false; isEmpty := false;
     isLogEntry := false; date := date;
     from := 7%positive; senderOriginal := 7%positive;
     history_peer_isSelf := false; _history := 50%positive;
     media_of_item := media; groupId_of_item := groupId;
     Get_HistoryMessageDate := None;
     Has_HistoryMessageUnreadBar := false;
     Has_HistoryMessageForwarded := false |}.

Definition view (data : ptr) (media : option Media) (block : option ptr)
    (index : Z) (group : option Group.t) : Element :=
  {| _data := data; _media := media; _y := 0; _context := History;
     _block := block; _flags := 0; _indexInBlock := index;
     Get_Group := group |}.

Definition first : Element := view 11 None (Some 30%positive) 0 None.
Definition second : Element := view 12 None (Some 30%positive) 1 None.
Definition photo : Element :=
  view 13 (Some (Plain 1 3)) None (-1) (Some (Group.mk 5 (Some 3%positive) [])).

(** The world before any element is built. *)
Definition start : World :=
  {| elements := ∅;
     items :=
       <[11%positive := message 1000 0 None]>
         (<[12%positive := message 1500 0 None]>
            (<[13%positive := message 90000 5 (Some 1%positive)]> ∅));
     blocks := <[30%positive := mkBlock [1%positive; 2%positive] None]> ∅;
     requests := [] |}.

Definition chat_calls : list Call :=
  [ new_Element 1 11 History; call_countCurrentSize 1 100;
    call_attachToBlock 1 30 0;
    new_Element 2 12 History; call_countCurrentSize 2 100;
    call_attachToBlock 2 30 1;
    new_Element 3 13 History; call_countCurrentSize 3 100 ].

Definition chat : World :=
  {| elements :=
       <[1%positive := first]>
         (<[2%positive := second]> (<[3%positive := photo]> ∅));
     items := items start;
     blocks := blocks start;
     requests :=
       [ registerItemView 1; initDimensions 1; performCountCurrentSize 1 100;
         setMainView 11 1;
         registerItemView 2; initDimensions 2; performCountCurrentSize 2 100;
         setMainView 12 2;
         registerItemView 3; initDimensions 3; performCountCurrentSize 3 100 ] |}.

(** Two photos of one album, each shown by an element that leads
    itself, as the constructor leaves them. *)
Definition album : World :=
  {| elements :=
       <[3%positive := photo]>
         (<[4%positive := view 14 (Some (Plain 1 4)) None (-1)
                            (Some (Group.mk 5 (Some 4%positive) []))]> ∅);
     items :=
       <[13%positive := message 90000 5 (Some 1%positive)]>
         (<[14%positive := message 90001 5 (Some 1%positive)]> ∅);
     blocks := ∅;
     requests := [] |}.

(** The album after element 3 was made a member of element 4, and
    after element 4 was then made a member of element 3. *)
Definition album_member : World :=
  {| elements :=
       <[3%positive :=
           set_flags (view 13 (Some (Plain 1 3)) None (-1)
                        (Some (Group.mk 5 (Some 4%positive) []))) 8]>
         (elements album);
     items := items album; blocks := blocks album;
     requests := [requestViewResize 3] |}.

Definition album_cycle : World :=
  {| elements :=
       <[4%positive :=
           set_flags (view 14 (Some (Plain 1 4)) None (-1)
                        (Some (Group.mk 5 (Some 3%positive) []))) 8]>
         (elements album_member);
     items := items album; blocks := blocks album;
     requests := [requestViewResize 3; requestViewResize 4] |}.

(** A medium remembers the element it was last refreshed for. *)
Definition refresh (m : HistoryMedia) (parent : ptr) : HistoryMedia :=
  match m : Media with
  | Plain source _ => Plain source parent
  | Grouped _ parts => Grouped parent parts
  end.

(** The same chat after the photo of the third message is gone. *)
Definition bare : World :=
  {| elements :=
       <[3%positive := view 13 None None (-1)
            (Some (Group.mk 5 (Some 3%positive) []))]> (elements chat);
     items := items chat; blocks := blocks chat; requests := requests chat |}.

(** The same chat with element 3 led by element 2 without being hidden,
    a state that no call of this file leaves behind. *)
Definition stray : World :=
  {| elements :=
       <[3%positive := view 13 (Some (Plain 1 3)) None (-1)
            (Some (Group.mk 5 (Some 2%positive) []))]> (elements chat);
     items := items chat; blocks := blocks chat; requests := [] |}.

(** The same chat with each of the two messages in a block of its
    own, the second block after the first. *)
Definition two_blocks : World :=
  {| elements :=
       <[2%positive := view 12 None (Some 31%positive) 0 None]> (elements chat);
     items := items chat;
     blocks :=
       <[30%positive := mkBlock [1%positive] None]>
         (<[31%positive := mkBlock [2%positive] (Some 30%positive)]> ∅);
     requests := requests chat |}.

(** The same chat with the second message sent on the next day. *)
Definition next_day : World :=
  {| elements := elements chat;
     items := <[12%positive := message 90000 0 None]> (items chat);
     blocks := blocks chat; requests := requests chat |}.

(** An empty message, and the same chat with its first message
    empty. *)
Definition nothing (date : Z) : HistoryItem :=
  {| isPost := false; serviceMsg := false; isEmpty := true;
     isLogEntry := false; date := date;
     from := 7%positive; senderOriginal := 7%positive;
     history_peer_isSelf := false; _history := 50%positive;
     media_of_item := None; groupId_of_item := 0;
     Get_HistoryMessageDate := None;
     Has_HistoryMessageUnreadBar := false;
     Has_HistoryMessageForwarded := false |}.

Definition after_nothing : World :=
  {| elements := elements chat;
     items := <[11%positive := nothing 1000]> (items chat);
     blocks := blocks chat; requests := requests chat |}.

End Sample.

End HistoryView.

(** * Properties of the selection helpers *)

Section SelectionFacts.
Import Selection.
Variable FullSelection : TextSelection.
Variables unshiftSelection shiftSelection : TextSelection -> Z -> TextSelection.
Variable Text : Type.
Variable Text_length : Text -> Z.

Lemma to_uint16_range n : 0 <= to_uint16 n < 65536.
Proof. unfold to_uint16. apply Z.mod_pos_bound. lia. Qed.

Lemma to_uint16_id n : 0 <= n < 65536 -> to_uint16 n = n.
Proof. intros H. unfold to_uint16. apply Z.mod_small. exact H. Qed.

Lemma UnshiftItemSelection_other selection byLength :
  selection <> FullSelection ->
  UnshiftItemSelection FullSelection unshiftSelection selection byLength
  = unshiftSelection selection byLength.
Proof. intros H. unfold UnshiftItemSelection. destruct (decide _); congruence. Qed.

Lemma ShiftItemSelection_other selection byLength :
  selection <> FullSelection ->
  ShiftItemSelection FullSelection shiftSelection selection byLength
  = shiftSelection selection byLength.
Proof. intros H. unfold ShiftItemSelection. destruct (decide _); congruence. Qed.

(** C8.  [FullSelection] is a fixed point of [UnshiftItemSelection] and
    of [ShiftItemSelection] for every [byLength], and each overload that
    takes a [Text] is the [uint16] overload at [byText.length()], the
    length being converted to the [uint16] that the parameter is. *)
Theorem ItemSelection_full_fixed_and_text_overloads :
  (forall byLength,
      UnshiftItemSelection FullSelection unshiftSelection FullSelection byLength
      = FullSelection
      /\ ShiftItemSelection FullSelection shiftSelection FullSelection byLength
         = FullSelection)
  /\ (forall selection byText,
         UnshiftItemSelection_Text FullSelection unshiftSelection Text Text_length
           selection byText
         = UnshiftItemSelection FullSelection unshiftSelection selection
             (to_uint16 (Text_length byText))
         /\ ShiftItemSelection_Text FullSelection shiftSelection Text Text_length
              selection byText
            = ShiftItemSelection FullSelection shiftSelection selection
                (to_uint16 (Text_length byText))).
Proof.
  split.
  - intros byLength. unfold UnshiftItemSelection, ShiftItemSelection.
    destruct (decide (FullSelection = FullSelection)) as [_ | ne];
      [ split; reflexivity | contradiction ne; reflexivity ].
  - intros selection byText. split; reflexivity.
Qed.
End SelectionFacts.

(** The fixed point is not an accident of the shifting functions: with
    functions that move every selection, [FullSelection] still stays. *)
Example UnshiftItemSelection_sample :
  let full := Selection.mkSelection 65535 65535 in
  let unshift := fun s n => Selection.mkSelection (Selection.from s - n) (Selection.to s - n) in
  Selection.UnshiftItemSelection full unshift full 3 = full
  /\ Selection.UnshiftItemSelection full unshift (Selection.mkSelection 10 20) 3
     = Selection.mkSelection 7 17.
Proof. split; reflexivity. Qed.

(** * Properties of the step history *)

Section IntroFacts.
Import Intro.
Context {Step : Type}.
Implicit Types (h : list Step) (skip : Z).

Lemma at_Read h i :
  0 <= i < size h -> exists s, at_ h i = Read s.
Proof.
  intros [lo hi]. unfold at_, size in *.
  destruct (0 <=? i) eqn:E1; [| lia].
  destruct (i <? Z.of_nat (length h)) eqn:E2; [| lia]. simpl.
  destruct (h !! Z.to_nat i) as [s |] eqn:E.
  - exists s. reflexivity.
  - apply lookup_ge_None in E. lia.
Qed.

Lemma at_out_of_range h i :
  ~ (0 <= i < size h) -> at_ h i = IndexOutOfRange i.
Proof.
  intros H. unfold at_.
  destruct (0 <=? i) eqn:E1; destruct (i <? size h) eqn:E2; simpl;
    try reflexivity.
  lia.
Qed.

Lemma to_int_cases z :
  -4294967296 <= z < 4294967296 ->
  (is_int z /\ to_int z = z)
  \/ (INT_MAX < z /\ to_int z = z - 4294967296)
  \/ (z < INT_MIN /\ to_int z = z + 4294967296).
Proof.
  intros Hz. unfold is_int, to_int, INT_MIN, INT_MAX.
  Z.div_mod_to_equations. lia.
Qed.

Lemma to_int_id z : is_int z -> to_int z = z.
Proof.
  intros Hz. unfold is_int, INT_MIN, INT_MAX in Hz.
  destruct (to_int_cases z) as [[_ E] | [[H _] | [H _]]];
    unfold INT_MIN, INT_MAX in *; solve [exact E | lia].
Qed.

(** The assertion passes exactly when the sum is positive and has not
    wrapped around. *)
Lemma getStep_asserted_iff h skip :
  is_int skip -> size h <= INT_MAX ->
  getStep_asserted h skip = true <-> 0 < size h + skip <= INT_MAX.
Proof.
  intros Hskip Hsize. assert (0 <= size h) by (unfold size; lia).
  unfold getStep_asserted, is_int, INT_MIN, INT_MAX in *.
  destruct (to_int_cases (size h + skip)) as [[R E] | [[R E] | [R E]]];
    unfold is_int, INT_MIN, INT_MAX in *; try lia; rewrite E; lia.
Qed.

(** For a [skip] that is not negative the index is computed without
    wrap-around, and the assertion bounds it from above only. *)
Lemma getStep_index_exact h skip :
  is_int skip -> size h <= INT_MAX -> 0 <= skip ->
  getStep_index h skip = size h - skip - 1.
Proof.
  intros Hskip Hsize Hpos. assert (0 <= size h) by (unfold size; lia).
  unfold getStep_index, is_int, INT_MIN, INT_MAX in *.
  rewrite (to_int_id (size h - skip))
    by (unfold is_int, INT_MIN, INT_MAX; lia).
  apply to_int_id. unfold is_int, INT_MIN, INT_MAX. lia.
Qed.

Lemma getStep_index_below_size h skip :
  is_int skip -> size h <= INT_MAX -> 0 <= skip ->
  getStep_index h skip < size h.
Proof.
  intros Hskip Hsize Hpos. rewrite getStep_index_exact by assumption. lia.
Qed.

(** The read of [getStep] is in range exactly when [skip] is smaller
    than the number of steps, whether or not the index wraps around. *)
Lemma getStep_in_range_iff h skip :
  is_int skip -> size h <= INT_MAX ->
  (0 <= getStep_index h skip < size h) <-> 0 <= skip < size h.
Proof.
  intros Hskip Hsize. assert (0 <= size h) by (unfold size; lia).
  destruct (Z_le_gt_dec 0 skip) as [Hpos | Hneg].
  - rewrite getStep_index_exact by assumption. lia.
  - unfold getStep_index, is_int, INT_MIN, INT_MAX in *.
    destruct (to_int_cases (size h - skip)) as [[R E] | [[R E] | [R E]]];
      unfold is_int, INT_MIN, INT_MAX in *; try lia; rewrite E;
      destruct (to_int_cases (size h - skip - 1)) as [[R1 E1] | [[R1 E1] | [R1 E1]]];
      unfold is_int, INT_MIN, INT_MAX in *; try lia;
      destruct (to_int_cases (size h - skip - 4294967296 - 1))
        as [[R2 E2] | [[R2 E2] | [R2 E2]]];
      unfold is_int, INT_MIN, INT_MAX in *; try lia; rewrite ?E1, ?E2; lia.
Qed.

Lemma getStep_Read h skip :
  size h + skip <= INT_MAX -> 0 <= skip < size h ->
  exists s, getStep h skip = Read s.
Proof.
  intros Hsum H.
  assert (Hsize : size h <= INT_MAX) by lia.
  assert (Hskip : is_int skip) by (unfold is_int, INT_MIN, INT_MAX in *; lia).
  unfold getStep.
  destruct (getStep_asserted h skip) eqn:E.
  - apply at_Read, getStep_in_range_iff; assumption.
  - assert (getStep_asserted h skip = true); [| congruence].
    apply getStep_asserted_iff; [assumption .. |]. unfold INT_MAX in *. lia.
Qed.

(** Whenever [0 <= size <= skip], one of them is positive and their
    sum is an [int], the assertion passes and the read is out of
    range. *)
Lemma getStep_assert_too_weak h skip :
  size h <= skip -> 0 < skip -> size h + skip <= INT_MAX ->
  getStep_asserted h skip = true
  /\ getStep h skip = IndexOutOfRange (size h - skip - 1).
Proof.
  intros H1 H2 H3. assert (0 <= size h) by (unfold size; lia).
  assert (Hskip : is_int skip) by (unfold is_int, INT_MIN, INT_MAX in *; lia).
  assert (Hsize : size h <= INT_MAX) by lia.
  assert (A : getStep_asserted h skip = true)
    by (apply getStep_asserted_iff; [assumption .. | lia]).
  split; [exact A |].
  unfold getStep. rewrite A.
  rewrite at_out_of_range by (rewrite getStep_in_range_iff by assumption; lia).
  rewrite getStep_index_exact by (assumption || lia). reflexivity.
Qed.

(** C3.  With one step in the history, [getStep(1)] passes the
    assertion ([1 + 1 > 0]) and then reads at index [-1]. *)
Theorem getStep_one_step_skip_one (s : Step) :
  getStep_asserted [s] 1 = true
  /\ getStep_index [s] 1 = -1
  /\ getStep [s] 1 = IndexOutOfRange (-1).
Proof. repeat split. Qed.

(** X1.  For an [int] [skip] and a history of at most [INT_MAX] steps,
    [getStep(skip)] returns a step exactly when [0 <= skip < size] and
    [size + skip] does not exceed [INT_MAX], and the step is then the
    one [skip] places before the last: the history read backwards at
    [skip].  Its assertion fails exactly when [size + skip <= 0] or
    the sum exceeds [INT_MAX] and wraps around; in every other case
    the read is out of range. *)
Theorem getStep_reads_backwards h skip :
  is_int skip -> size h <= INT_MAX ->
  (forall s, getStep h skip = Read s
             <-> 0 <= skip < size h /\ size h + skip <= INT_MAX
                 /\ reverse h !! Z.to_nat skip = Some s)
  /\ (getStep h skip = AssertionFailed
      <-> size h + skip <= 0 \/ INT_MAX < size h + skip)
  /\ (getStep h skip = IndexOutOfRange (getStep_index h skip)
      <-> 0 < size h + skip <= INT_MAX /\ ~ (0 <= skip < size h)).
Proof.
  intros Hskip Hmax.
  assert (Hsize : 0 <= size h) by (unfold size; lia).
  pose proof (getStep_asserted_iff h skip Hskip Hmax) as Hasserted.
  pose proof (getStep_in_range_iff h skip Hskip Hmax) as Hrange.
  unfold getStep.
  destruct (getStep_asserted h skip) eqn:A.
  - assert (Apos : 0 < size h + skip <= INT_MAX) by (apply Hasserted; reflexivity).
    destruct (decide (0 <= skip < size h)) as [inside | outside].
    + assert (Hindex : getStep_index h skip = size h - skip - 1)
        by (apply getStep_index_exact; [assumption .. | lia]).
      assert (Hlookup : reverse h !! Z.to_nat skip
                        = h !! Z.to_nat (getStep_index h skip)).
      { rewrite reverse_lookup by (unfold size in inside; lia).
        f_equal. rewrite Hindex. unfold size in *. lia. }
      destruct (at_Read h (getStep_index h skip)) as [s' Hs'];
        [apply Hrange; exact inside |].
      assert (Hs : h !! Z.to_nat (getStep_index h skip) = Some s').
      { revert Hs'. unfold at_.
        destruct ((0 <=? _) && (_ <? _)); [| discriminate].
        destruct (h !! _); [| discriminate]. intros [= ->]. reflexivity. }
      rewrite Hs'. split; [| split].
      * intros s. rewrite Hlookup, Hs.
        split; [intros [= ->]; split; [exact inside | split; [lia | reflexivity]]
               | intros (_ & _ & [= ->]); reflexivity].
      * split; [discriminate | lia].
      * split; [discriminate | intros [_ no]; contradiction].
    + rewrite (at_out_of_range h (getStep_index h skip))
        by (rewrite Hrange; exact outside).
      split; [| split].
      * intros s. split; [discriminate | intros [inside _]; contradiction].
      * split; [discriminate | lia].
      * split; [auto | reflexivity].
  - assert (Aneg : ~ (0 < size h + skip <= INT_MAX))
      by (rewrite <- Hasserted; discriminate).
    split; [| split].
    + intros s. split; [discriminate |].
      intros (inside & ok & _). exfalso. apply Aneg. lia.
    + split; [lia | reflexivity].
    + split; [discriminate | intros [ok _]; contradiction].
Qed.
End IntroFacts.

(** * Properties of the history view elements *)

Section ElementFacts.
Import HistoryView.
Context {FV : FlagValues} {DA : DateApi} {MA : MediaApi}.
Implicit Types (w : World) (this : ptr) (e : Element) (flags : Z) (f g : Flag).

(** ** Flag arithmetic *)

Lemma disjoint_bits f g n :
  f <> g -> Z.testbit (value f) n && Z.testbit (value g) n = false.
Proof.
  intros H. rewrite <- Z.land_spec, (value_disjoint f g H). apply Z.bits_0.
Qed.

Lemma land_addFlag_same flags f : Z.land (addFlag flags f) (value f) = value f.
Proof.
  unfold addFlag. apply Z.bits_inj'. intros n _.
  rewrite Z.land_spec, Z.lor_spec.
  destruct (Z.testbit flags n), (Z.testbit (value f) n); reflexivity.
Qed.

Lemma hasFlag_addFlag flags f : hasFlag (addFlag flags f) f = true.
Proof.
  unfold hasFlag. rewrite land_addFlag_same.
  pose proof (value_nonzero f). destruct (value f =? 0) eqn:E; [lia | reflexivity].
Qed.

Lemma hasFlag_removeFlag flags f : hasFlag (removeFlag flags f) f = false.
Proof.
  unfold hasFlag, removeFlag.
  replace (Z.land (Z.land flags (Z.lnot (value f))) (value f)) with 0;
    [reflexivity |].
  symmetry. apply Z.bits_inj'. intros n Hn.
  rewrite !Z.land_spec, Z.lnot_spec, Z.bits_0 by exact Hn.
  destruct (Z.testbit flags n), (Z.testbit (value f) n); reflexivity.
Qed.

Lemma outside_addFlag flags f : outside_unchanged f flags (addFlag flags f).
Proof.
  intros n H. unfold addFlag. rewrite Z.lor_spec, H. apply orb_false_r.
Qed.

Lemma outside_removeFlag flags f : outside_unchanged f flags (removeFlag flags f).
Proof.
  intros n H. unfold removeFlag. destruct (Z.neg_nonneg_cases n) as [neg | nonneg].
  - rewrite !Z.testbit_neg_r by exact neg. reflexivity.
  - rewrite Z.land_spec, Z.lnot_spec, H by exact nonneg. apply andb_true_r.
Qed.

Lemma outside_refl f flags : outside_unchanged f flags flags.
Proof. intros n _. reflexivity. Qed.

Lemma outside_two f g old mid new :
  outside_unchanged f old mid -> outside_unchanged g mid new ->
  outside_two_unchanged f g old new.
Proof. intros A B n Hf Hg. rewrite (B n Hg). apply A, Hf. Qed.

(** A flag whose mask is disjoint from the changed one reads the same. *)
Lemma hasFlag_outside f g old new :
  f <> g -> outside_unchanged f old new -> hasFlag new g = hasFlag old g.
Proof.
  intros H U. unfold hasFlag. f_equal. f_equal.
  apply Z.bits_inj'. intros n _. pose proof (disjoint_bits f g n H) as D.
  rewrite !Z.land_spec.
  destruct (Z.testbit (value f) n) eqn:F.
  - simpl in D. rewrite D, !andb_false_r. reflexivity.
  - rewrite (U n F). reflexivity.
Qed.

Lemma hasFlag_addFlag_ne flags f g :
  f <> g -> hasFlag (addFlag flags f) g = hasFlag flags g.
Proof. intros H. apply (hasFlag_outside f g), outside_addFlag. exact H. Qed.

Lemma hasFlag_removeFlag_ne flags f g :
  f <> g -> hasFlag (removeFlag flags f) g = hasFlag flags g.
Proof. intros H. apply (hasFlag_outside f g), outside_removeFlag. exact H. Qed.

(** ** Running the primitives *)

Lemma set_flags_same e : set_flags e (_flags e) = e.
Proof. destruct e; reflexivity. Qed.

Lemma World_same w :
  {| elements := elements w; items := items w; blocks := blocks w;
     requests := requests w |} = w.
Proof. destruct w; reflexivity. Qed.

Ltac exec :=
  repeat first
    [ progress unfold mbind, mret, Run_bind, Run_ret, update_Group, update_element,
        data, media, Get_Group_of, group_of, deref_element, deref_item, deref_block,
        load, store_element, store_item, call, check, Expects, Assert, Ensures, stop,
        isHiddenByGroup, isAttachedToNext, isAttachedToPrevious, pendingResize
    | progress simpl
    | rewrite lookup_insert_eq
    | match goal with
      | H : ?m !! ?k = Some _ |- context [?m !! ?k] => rewrite H
      | H : Get_Group ?e = Some _ |- context [Get_Group ?e] => rewrite H
      end ].

Lemma setPendingResize_effect w this e :
  elements w !! this = Some e ->
  (_context e = History -> is_Some (items w !! _data e)) ->
  exists rs,
    setPendingResize this w
    = Done tt {| elements := <[this := set_flags e (addFlag (_flags e) NeedsResize)]>
                               (elements w);
                 items := items w; blocks := blocks w;
                 requests := requests w ++ rs |}.
Proof.
  intros He Hi. unfold setPendingResize. exec.
  destruct (decide (_context e = History)) as [c | c]; exec.
  - destruct (Hi c) as [i Hitem]. exec. eexists [_]. reflexivity.
  - exists []. rewrite app_nil_r. reflexivity.
Qed.

(** ** [setAttachToNext] and [setAttachToPrevious] *)

Lemma setAttachToNext_effect w this e b :
  elements w !! this = Some e ->
  exists flags rs,
    setAttachToNext this b w
    = Done tt {| elements := <[this := set_flags e flags]> (elements w);
                 items := items w; blocks := blocks w;
                 requests := requests w ++ rs |}
    /\ hasFlag flags AttachedToNext = b
    /\ outside_unchanged AttachedToNext (_flags e) flags
    /\ (hasFlag (_flags e) AttachedToNext = b -> flags = _flags e /\ rs = []).
Proof.
  intros He. unfold setAttachToNext. exec.
  destruct b, (hasFlag (_flags e) AttachedToNext) eqn:E; exec.
  - exists (_flags e), [].
    rewrite set_flags_same, insert_id, app_nil_r, World_same by exact He.
    split; [reflexivity |]. split; [exact E |].
    split; [apply outside_refl | intros _; split; reflexivity].
  - eexists _, [_]. split; [reflexivity |].
    split; [apply hasFlag_addFlag |]. split; [apply outside_addFlag | discriminate].
  - eexists _, [_]. split; [reflexivity |].
    split; [apply hasFlag_removeFlag |].
    split; [apply outside_removeFlag | discriminate].
  - exists (_flags e), [].
    rewrite set_flags_same, insert_id, app_nil_r, World_same by exact He.
    split; [reflexivity |]. split; [exact E |].
    split; [apply outside_refl | intros _; split; reflexivity].
Qed.

Lemma setAttachToPrevious_effect w this e b :
  elements w !! this = Some e ->
  (_context e = History -> is_Some (items w !! _data e)) ->
  exists flags rs,
    setAttachToPrevious this b w
    = Done tt {| elements := <[this := set_flags e flags]> (elements w);
                 items := items w; blocks := blocks w;
                 requests := requests w ++ rs |}
    /\ hasFlag flags AttachedToPrevious = b
    /\ outside_two_unchanged AttachedToPrevious NeedsResize (_flags e) flags
    /\ (hasFlag (_flags e) AttachedToPrevious = b -> flags = _flags e /\ rs = [])
    /\ (hasFlag (_flags e) AttachedToPrevious <> b ->
        hasFlag flags NeedsResize = true).
Proof.
  intros He Hi. unfold setAttachToPrevious. exec.
  assert (same : hasFlag (_flags e) AttachedToPrevious = b ->
    exists flags rs,
      Done tt w
      = Done tt {| elements := <[this := set_flags e flags]> (elements w);
                   items := items w; blocks := blocks w;
                   requests := requests w ++ rs |}
      /\ hasFlag flags AttachedToPrevious = b
      /\ outside_two_unchanged AttachedToPrevious NeedsResize (_flags e) flags
      /\ (hasFlag (_flags e) AttachedToPrevious = b -> flags = _flags e /\ rs = [])
      /\ (hasFlag (_flags e) AttachedToPrevious <> b ->
          hasFlag flags NeedsResize = true)).
  { intros E. exists (_flags e), [].
    rewrite set_flags_same, insert_id, app_nil_r, World_same by exact He.
    split; [reflexivity |]. split; [exact E |].
    split; [intros n _ _; reflexivity |].
    split; [intros _; split; reflexivity | intros ne; contradiction]. }
  assert (changed : forall mid,
    hasFlag mid AttachedToPrevious = b ->
    outside_unchanged AttachedToPrevious (_flags e) mid ->
    hasFlag (_flags e) AttachedToPrevious <> b ->
    exists flags rs,
      setPendingResize this
        {| elements := <[this := set_flags e mid]> (elements w);
           items := items w; blocks := blocks w; requests := requests w |}
      = Done tt {| elements := <[this := set_flags e flags]> (elements w);
                   items := items w; blocks := blocks w;
                   requests := requests w ++ rs |}
      /\ hasFlag flags AttachedToPrevious = b
      /\ outside_two_unchanged AttachedToPrevious NeedsResize (_flags e) flags
      /\ (hasFlag (_flags e) AttachedToPrevious = b -> flags = _flags e /\ rs = [])
      /\ (hasFlag (_flags e) AttachedToPrevious <> b ->
          hasFlag flags NeedsResize = true)).
  { intros mid Hmid Hout Hne.
    edestruct (setPendingResize_effect
                 {| elements := <[this := set_flags e mid]> (elements w);
                    items := items w; blocks := blocks w; requests := requests w |}
                 this (set_flags e mid)) as [rs Hrs].
    - simpl. apply lookup_insert_eq.
    - exact Hi.
    - rewrite Hrs. simpl. rewrite insert_insert_eq.
      exists (addFlag mid NeedsResize), rs. split; [reflexivity |].
      split; [rewrite hasFlag_addFlag_ne by discriminate; exact Hmid |].
      split; [eapply outside_two; [exact Hout | apply outside_addFlag] |].
      split; [intros; contradiction | intros _; apply hasFlag_addFlag]. }
  destruct b, (hasFlag (_flags e) AttachedToPrevious) eqn:E; exec.
  - apply same. reflexivity.
  - apply changed; [apply hasFlag_addFlag | apply outside_addFlag | discriminate].
  - apply changed; [apply hasFlag_removeFlag | apply outside_removeFlag | discriminate].
  - apply same. reflexivity.
Qed.

(** C9, as the code has it.  [setAttachToNext(b)] and
    [setAttachToPrevious(b)] return, make the flag they name read [b]
    and change nothing but [_flags] of the element; a call whose flag
    already reads [b] leaves the whole world as it was, with no request
    issued.  [setAttachToNext] leaves every bit outside
    [AttachedToNext]; [setAttachToPrevious] leaves every bit outside
    [AttachedToPrevious] and [NeedsResize], and a call that changes
    the flag leaves [NeedsResize] set. *)
Theorem setAttachTo_flag_and_frame w this e b :
  elements w !! this = Some e ->
  (exists w' e',
      setAttachToNext this b w = Done tt w'
      /\ elements w' !! this = Some e'
      /\ e' = set_flags e (_flags e')
      /\ hasFlag (_flags e') AttachedToNext = b
      /\ (hasFlag (_flags e) AttachedToNext = b -> w' = w)
      /\ outside_unchanged AttachedToNext (_flags e) (_flags e'))
  /\ ((_context e = History -> is_Some (items w !! _data e)) ->
      exists w' e',
        setAttachToPrevious this b w = Done tt w'
        /\ elements w' !! this = Some e'
        /\ e' = set_flags e (_flags e')
        /\ hasFlag (_flags e') AttachedToPrevious = b
        /\ (hasFlag (_flags e) AttachedToPrevious = b -> w' = w)
        /\ outside_two_unchanged AttachedToPrevious NeedsResize
             (_flags e) (_flags e')
        /\ (hasFlag (_flags e) AttachedToPrevious <> b ->
            hasFlag (_flags e') NeedsResize = true)).
Proof.
  intros He. split.
  - destruct (setAttachToNext_effect w this e b He)
      as (flags & rs & Hrun & Hflag & Hout & Hsame).
    eexists _, (set_flags e flags). split; [exact Hrun |]. simpl.
    split; [apply lookup_insert_eq |]. split; [reflexivity |].
    split; [exact Hflag |]. split; [| exact Hout].
    intros E. destruct (Hsame E) as [-> ->].
    rewrite set_flags_same, insert_id, app_nil_r by exact He. apply World_same.
  - intros Hi.
    destruct (setAttachToPrevious_effect w this e b He Hi)
      as (flags & rs & Hrun & Hflag & Hout & Hsame & Hresize).
    eexists _, (set_flags e flags). split; [exact Hrun |]. simpl.
    split; [apply lookup_insert_eq |]. split; [reflexivity |].
    split; [exact Hflag |]. split; [| split; [exact Hout | exact Hresize]].
    intros E. destruct (Hsame E) as [-> ->].
    rewrite set_flags_same, insert_id, app_nil_r by exact He. apply World_same.
Qed.

(** Whatever the masks are, a call of [setAttachToPrevious] that changes
    its flag on an element not yet pending a resize changes a bit
    outside [AttachedToPrevious]. *)
Lemma setAttachToPrevious_not_outside w this e b w' e' :
  elements w !! this = Some e ->
  hasFlag (_flags e) AttachedToPrevious <> b ->
  hasFlag (_flags e) NeedsResize = false ->
  setAttachToPrevious this b w = Done tt w' ->
  elements w' !! this = Some e' ->
  ~ outside_unchanged AttachedToPrevious (_flags e) (_flags e').
Proof.
  intros He Hne Hnr Hrun He' Hout.
  unfold setAttachToPrevious in Hrun. revert Hrun. exec.
  destruct b, (hasFlag (_flags e) AttachedToPrevious) eqn:E;
    try contradiction; exec; unfold setPendingResize; exec;
    (destruct (decide (_context e = History)); exec;
     [destruct (items w !! _data e); exec; [| discriminate] |]);
    intros [= <-]; simpl in He'; rewrite lookup_insert_eq in He';
    injection He' as <-; simpl in Hout;
    apply (hasFlag_outside AttachedToPrevious NeedsResize) in Hout;
    try discriminate;
    rewrite hasFlag_addFlag, Hnr in Hout; discriminate.
Qed.

(** [nextInBlocksChanged] leaves the element not attached to a next
    one. *)
Lemma nextInBlocksChanged_detaches w this e :
  elements w !! this = Some e ->
  exists w', nextInBlocksChanged this w = Done tt w'
             /\ isAttachedToNext this w' = Done false w'.
Proof.
  intros He. unfold nextInBlocksChanged.
  destruct (setAttachToNext_effect w this e false He)
    as (flags & rs & Hrun & Hflag & _).
  rewrite Hrun. eexists. split; [reflexivity |]. exec.
  rewrite Hflag. reflexivity.
Qed.

(** ** [computeIsAttachToPrevious] *)

Lemma possible_true_iff (item prev : HistoryItem) :
  possible item prev = true <->
  isPost item = false /\ isPost prev = false
  /\ serviceMsg item = false /\ serviceMsg prev = false
  /\ isEmpty item = false /\ isEmpty prev = false
  /\ Z.abs (secsTo (date prev) (date item)) < 900.
Proof.
  unfold possible, kAttachMessageToPreviousSecondsDelta.
  rewrite !andb_true_iff, !negb_true_iff, Z.ltb_lt. tauto.
Qed.

Lemma computeIsAttachToPrevious_run w this previous e pe (item prev : HistoryItem) :
  elements w !! this = Some e ->
  items w !! _data e = Some item ->
  elements w !! previous = Some pe ->
  items w !! _data pe = Some prev ->
  computeIsAttachToPrevious this previous w
  = Done (negb (Has_HistoryMessageDate item)
          && negb (Has_HistoryMessageUnreadBar item)
          && possible item prev
          && (if history_peer_isSelf item
              then bool_decide (senderOriginal prev = senderOriginal item)
                   && bool_decide (Has_HistoryMessageForwarded prev
                                   = Has_HistoryMessageForwarded item)
              else bool_decide (from prev = from item))) w.
Proof.
  intros He Hitem Hpe Hprev. unfold computeIsAttachToPrevious. exec.
  destruct (Has_HistoryMessageDate item); simpl; [reflexivity |].
  destruct (Has_HistoryMessageUnreadBar item); simpl; [reflexivity |].
  exec. destruct (possible item prev); [| reflexivity].
  destruct (history_peer_isSelf item); reflexivity.
Qed.

(** C1.  [computeIsAttachToPrevious(previous)] returns, changes nothing,
    and its result is [true] exactly when the item has neither a
    [HistoryMessageDate] nor a [HistoryMessageUnreadBar], both items are
    non-post, non-service and non-empty, the dates are less than 900
    seconds apart, and the senders agree: in a self-chat the same
    [senderOriginal] and the same presence of [HistoryMessageForwarded],
    otherwise the same [from]. *)
Theorem computeIsAttachToPrevious_true_iff w this previous e pe item prev :
  elements w !! this = Some e ->
  items w !! _data e = Some item ->
  elements w !! previous = Some pe ->
  items w !! _data pe = Some prev ->
  exists b,
    computeIsAttachToPrevious this previous w = Done b w
    /\ (b = true <->
        Has_HistoryMessageDate item = false
        /\ Has_HistoryMessageUnreadBar item = false
        /\ isPost item = false /\ isPost prev = false
        /\ serviceMsg item = false /\ serviceMsg prev = false
        /\ isEmpty item = false /\ isEmpty prev = false
        /\ Z.abs (secsTo (date prev) (date item))
           < kAttachMessageToPreviousSecondsDelta
        /\ (if history_peer_isSelf item
            then senderOriginal prev = senderOriginal item
                 /\ Has_HistoryMessageForwarded prev
                    = Has_HistoryMessageForwarded item
            else from prev = from item)).
Proof.
  intros He Hitem Hpe Hprev.
  eexists. split;
    [apply (computeIsAttachToPrevious_run w this previous e pe item prev);
     assumption |].
  rewrite !andb_true_iff, !negb_true_iff, possible_true_iff.
  unfold kAttachMessageToPreviousSecondsDelta.
  destruct (history_peer_isSelf item).
  - rewrite andb_true_iff, !bool_decide_eq_true. tauto.
  - rewrite bool_decide_eq_true. tauto.
Qed.

(** ** Construction *)

(** C10.  Right after construction the element has a [Group] component
    exactly when the [groupId()] of its item is not null, and then the
    element leads its own group, whose [groupId] is the item's. *)
Theorem Element_new_group w this d context i :
  items w !! d = Some i ->
  exists w' e,
    Element_new this d context w = Done tt w'
    /\ elements w' !! this = Some e
    /\ _data e = d
    /\ (is_Some (Get_Group e) <-> groupId_of_item i <> 0)
    /\ (forall g : Group.t, Get_Group e = Some g ->
          Group.leader g = Some this
          /\ Group.groupId g = groupId_of_item i
          /\ Group.others g = []).
Proof.
  intros Hi. unfold Element_new, initGroup. exec.
  destruct (groupId_of_item i =? 0) eqn:E; exec.
  - eexists _, _. split; [reflexivity |]. simpl.
    split; [apply lookup_insert_eq |]. simpl. split; [reflexivity |].
    split.
    + split; [intros [g Hg]; discriminate | lia].
    + intros g Hg. discriminate.
  - rewrite !insert_insert_eq.
    eexists _, _. split; [reflexivity |]. simpl.
    split; [apply lookup_insert_eq |]. simpl. split; [reflexivity |].
    split.
    + split; [lia | eauto].
    + intros g Hg. injection Hg as <-. simpl. auto.
Qed.

(** A new element is consistent with its group as soon as the initial
    flags do not hide it. *)
Lemma constructed_group_consistent w this d context w' e :
  hasFlag initialFlags HiddenByGroup = false ->
  Element_new this d context w = Done tt w' ->
  elements w' !! this = Some e ->
  group_consistent this e.
Proof.
  intros H0 Hrun He. unfold Element_new, initGroup in Hrun. revert Hrun. exec.
  destruct (items w !! d) as [i |] eqn:Hi; [| discriminate]. exec.
  destruct (groupId_of_item i =? 0) eqn:E; exec.
  - intros [= <-]. simpl in He. rewrite lookup_insert_eq in He.
    injection He as <-. intros g Hg. discriminate.
  - rewrite !insert_insert_eq. intros [= <-]. simpl in He.
    rewrite lookup_insert_eq in He. injection He as <-.
    intros g Hg. simpl in Hg. injection Hg as <-. simpl. rewrite H0.
    split; [split; [discriminate | congruence] | congruence].
Qed.

(** ** Grouping *)

(** What the body of [makeGroupMember] leaves in the element. *)
Lemma makeGroupMember_body_effect w this leader e (g : Group.t) :
  elements w !! this = Some e ->
  Get_Group e = Some g ->
  exists e' rs,
    makeGroupMember_body this leader w
    = Done tt {| elements := <[this := e']> (elements w);
                 items := items w; blocks := blocks w;
                 requests := requests w ++ rs |}
    /\ _data e' = _data e
    /\ (if decide (Group.leader g = Some this)
        then _flags e' = addFlag (_flags e) HiddenByGroup
             /\ Get_Group e' = Some (Group.mk (Group.groupId g) (Some leader) [])
        else _flags e' = _flags e
             /\ Get_Group e'
                = Some (Group.mk (Group.groupId g) (Some leader) (Group.others g))).
Proof.
  intros He Hg. unfold makeGroupMember_body.
  destruct (decide (Group.leader g = Some this)) as [own | led];
    [| destruct (decide (Group.leader g <> Some leader)) as [other | same]];
    exec; repeat (destruct (decide _) as [? | ?]; try contradiction); exec.
  - destruct (_media e) as [m |] eqn:Em;
      [destruct (takeLastFromGroup m) as [[single |] m'] |];
      exec; rewrite ?insert_insert_eq;
      (eexists _, [_]; split; [reflexivity |]; simpl; auto).
  - eexists _, []. rewrite app_nil_r. split; [reflexivity |].
    simpl. auto.
  - exists e, []. rewrite insert_id, app_nil_r, World_same by exact He.
    split; [reflexivity |]. split; [reflexivity |]. split; [reflexivity |].
    rewrite Hg. f_equal. destruct g as [id l o]; simpl in *.
    destruct (decide (l = Some leader)) as [-> | ne]; [reflexivity | contradiction].
Qed.

(** How [makeGroupMember] ends: it returns from an element that led
    itself, and from an element led by another one it returns when the
    element is already hidden and holds no members; otherwise one of
    its [Ensures] stops it. *)
Lemma makeGroupMember_run w this leader e (g : Group.t) :
  leader <> this ->
  elements w !! this = Some e ->
  Get_Group e = Some g ->
  exists e' rs,
    _data e' = _data e
    /\ Get_Group e'
       = Some (Group.mk (Group.groupId g) (Some leader)
                 (if decide (Group.leader g = Some this) then [] else Group.others g))
    /\ _flags e' = (if decide (Group.leader g = Some this)
                    then addFlag (_flags e) HiddenByGroup else _flags e)
    /\ makeGroupMember this leader w
       = if hasFlag (_flags e') HiddenByGroup
            && bool_decide (Group.others
                 (Group.mk (Group.groupId g) (Some leader)
                    (if decide (Group.leader g = Some this) then []
                     else Group.others g)) = [])
         then Done tt {| elements := <[this := e']> (elements w);
                         items := items w; blocks := blocks w;
                         requests := requests w ++ rs |}
         else Abort EnsuresFailed.
Proof.
  intros Hne He Hg.
  destruct (makeGroupMember_body_effect w this leader e g He Hg)
    as (e' & rs & Hbody & Hdata & Heffect).
  exists e', rs. unfold makeGroupMember. exec.
  rewrite bool_decide_true by exact Hne. exec. rewrite Hbody. exec.
  assert (G : Get_Group e'
              = Some (Group.mk (Group.groupId g) (Some leader)
                        (if decide (Group.leader g = Some this) then []
                         else Group.others g)))
    by (destruct (decide (Group.leader g = Some this)); tauto).
  assert (F : _flags e' = (if decide (Group.leader g = Some this)
                           then addFlag (_flags e) HiddenByGroup else _flags e))
    by (destruct (decide (Group.leader g = Some this)); tauto).
  split; [exact Hdata |]. split; [exact G |]. split; [exact F |].
  destruct (hasFlag (_flags e') HiddenByGroup); exec; [| reflexivity].
  destruct (bool_decide _); reflexivity.
Qed.

Lemma makeGroupMember_post w this leader e (g : Group.t) w' :
  leader <> this ->
  elements w !! this = Some e ->
  Get_Group e = Some g ->
  makeGroupMember this leader w = Done tt w' ->
  exists e' (g' : Group.t),
    elements w' !! this = Some e'
    /\ Get_Group e' = Some g'
    /\ isHiddenByGroup this w' = Done true w'
    /\ Group.others g' = []
    /\ Group.leader g' = Some leader.
Proof.
  intros Hne He Hg.
  destruct (makeGroupMember_run w this leader e g Hne He Hg)
    as (e' & rs & Hdata & Hgroup & Hflags & Hrun).
  rewrite Hrun. simpl.
  destruct (hasFlag (_flags e') HiddenByGroup) eqn:Hid; simpl; [| discriminate].
  destruct (bool_decide _) eqn:Emp; [| discriminate].
  apply bool_decide_eq_true in Emp.
  intros [= <-]. eexists e', _. exec. rewrite Hid.
  split; [reflexivity |]. split; [reflexivity || exact Hgroup |]. split; [reflexivity |].
  split; [exact Emp | reflexivity].
Qed.

Lemma makeGroupMember_returns_iff w this leader e (g : Group.t) :
  leader <> this ->
  elements w !! this = Some e ->
  Get_Group e = Some g ->
  (exists w', makeGroupMember this leader w = Done tt w')
  <-> (Group.leader g <> Some this ->
       hasFlag (_flags e) HiddenByGroup = true /\ Group.others g = []).
Proof.
  intros Hne He Hg.
  destruct (makeGroupMember_run w this leader e g Hne He Hg)
    as (e' & rs & Hdata & Hgroup & Hflags & Hrun).
  rewrite Hrun, Hflags. simpl.
  destruct (decide (Group.leader g = Some this)) as [own | led].
  - rewrite hasFlag_addFlag. simpl.
    split; [intros _ ne; contradiction | eauto].
  - destruct (hasFlag (_flags e) HiddenByGroup); simpl.
    + destruct (bool_decide (Group.others g = [])) eqn:Emp.
      * apply bool_decide_eq_true in Emp. split; [auto | eauto].
      * apply bool_decide_eq_false in Emp.
        split; [intros [w' [=]] | intros H; destruct (H led); contradiction].
    + split; [intros [w' [=]] | intros H; destruct (H led); discriminate].
Qed.

(** What the body of [makeGroupLeader] leaves in the element. *)
Lemma makeGroupLeader_body_effect w this others e (g : Group.t) :
  elements w !! this = Some e ->
  Get_Group e = Some g ->
  exists e' rs,
    makeGroupLeader_body this others w
    = Done tt {| elements := <[this := e']> (elements w);
                 items := items w; blocks := blocks w;
                 requests := requests w ++ rs |}
    /\ _data e' = _data e
    /\ Get_Group e' = Some (Group.mk (Group.groupId g) (Some this) others)
    /\ _flags e' = (if decide (Group.leader g = Some this)
                    then _flags e else removeFlag (_flags e) HiddenByGroup)
    /\ _media e'
       = match _media e with
         | None => if bool_decide (others = []) then None
                   else Some (HistoryGroupedMedia this others)
         | Some m =>
           if fst (applyGroup m others) then Some (snd (applyGroup m others))
           else if bool_decide (others = [])
                then fst (takeLastFromGroup (snd (applyGroup m others)))
                else Some (HistoryGroupedMedia this others)
         end.
Proof.
  intros He Hg. unfold makeGroupLeader_body, cannot_applyGroup, resetGroupMedia.
  exec.
  assert (G : forall l : option ptr,
             (Group.leader g = Some this -> l = Group.leader g) ->
             (Group.leader g <> Some this -> l = Some this) ->
             Some (Group.mk (Group.groupId g) l others)
             = Some (Group.mk (Group.groupId g) (Some this) others)).
  { intros l A B. destruct (decide (Group.leader g = Some this)) as [own | led].
    - rewrite (A own), own. reflexivity.
    - rewrite (B led). reflexivity. }
  destruct (decide (Group.leader g = Some this)) as [own | led];
    [rewrite bool_decide_false by tauto | rewrite bool_decide_true by exact led];
    exec;
    (destruct (_media e) as [m |] eqn:Em; exec;
     [destruct (applyGroup m others) as [[|] m'] eqn:Ea; exec | rewrite Em; exec]);
    try (destruct (bool_decide (others = [])); exec);
    rewrite ?insert_insert_eq; rewrite <- ?app_assoc;
    (eexists _, _; split;
     [rewrite <- (app_nil_r (requests w)) at 1; rewrite <- ?app_assoc; reflexivity |]);
    unfold Group.set_others, Group.set_leader; simpl;
    (split; [reflexivity |]); (split; [apply G; intros; tauto || reflexivity |]);
    auto.
Qed.

Lemma makeGroupLeader_post w this others e (g : Group.t) w' :
  elements w !! this = Some e ->
  Get_Group e = Some g ->
  makeGroupLeader this others w = Done tt w' ->
  exists e' (g' : Group.t),
    elements w' !! this = Some e'
    /\ Get_Group e' = Some g'
    /\ Group.leader g' = Some this
    /\ isHiddenByGroup this w' = Done false w'
    /\ Group.others g' = others
    /\ (cannot_take_group (_media e) others = true -> others <> [] ->
        _media e' = Some (HistoryGroupedMedia this others)).
Proof.
  intros He Hg.
  destruct (makeGroupLeader_body_effect w this others e g He Hg)
    as (e' & rs & Hbody & Hdata & Hgroup & Hflags & Hmedia).
  unfold makeGroupLeader. exec. rewrite Hbody. exec.
  destruct (hasFlag (_flags e') HiddenByGroup) eqn:Hid; exec; [discriminate |].
  intros [= <-]. eexists e', _. exec. rewrite Hid.
  split; [reflexivity |]. split; [reflexivity || exact Hgroup |].
  split; [reflexivity |]. split; [reflexivity |]. split; [reflexivity |].
  intros Hcannot Hothers. rewrite Hmedia. unfold cannot_take_group in Hcannot.
  rewrite bool_decide_false by exact Hothers.
  destruct (_media e) as [m |]; [| reflexivity].
  apply negb_true_iff in Hcannot. rewrite Hcannot. reflexivity.
Qed.

Lemma makeGroupLeader_returns_iff w this others e (g : Group.t) :
  elements w !! this = Some e ->
  Get_Group e = Some g ->
  (exists w', makeGroupLeader this others w = Done tt w')
  <-> (Group.leader g = Some this -> hasFlag (_flags e) HiddenByGroup = false).
Proof.
  intros He Hg.
  destruct (makeGroupLeader_body_effect w this others e g He Hg)
    as (e' & rs & Hbody & Hdata & Hgroup & Hflags & Hmedia).
  unfold makeGroupLeader. exec. rewrite Hbody. exec. rewrite Hflags.
  destruct (decide (Group.leader g = Some this)) as [own | led].
  - destruct (hasFlag (_flags e) HiddenByGroup); exec.
    + split; [intros [w' [=]] | intros H; specialize (H own); discriminate].
    + split; [auto | eauto].
  - rewrite hasFlag_removeFlag. exec.
    split; [intros _ own; contradiction | eauto].
Qed.

(** Both calls leave the element consistent with its group whenever
    they return, and return from every consistent element. *)
Lemma makeGroupMember_group_consistent w this leader e w' e' :
  leader <> this ->
  elements w !! this = Some e ->
  is_Some (Get_Group e) ->
  makeGroupMember this leader w = Done tt w' ->
  elements w' !! this = Some e' ->
  group_consistent this e'.
Proof.
  intros Hne He [g0 Hg0] Hrun He'.
  destruct (makeGroupMember_post w this leader e g0 w' Hne He Hg0 Hrun)
    as (e2 & g' & He2 & Hg' & Hhid & Hothers & Hleader).
  rewrite He' in He2. injection He2 as <-.
  revert Hhid. exec. intros [= Hhid].
  intros g Hg. rewrite Hg' in Hg. injection Hg as <-.
  rewrite Hhid, Hleader.
  split; [split; [intros _ [= ->]; contradiction | reflexivity]
         | intros _; exact Hothers].
Qed.

Lemma makeGroupLeader_group_consistent w this others e w' e' :
  elements w !! this = Some e ->
  is_Some (Get_Group e) ->
  makeGroupLeader this others w = Done tt w' ->
  elements w' !! this = Some e' ->
  group_consistent this e'.
Proof.
  intros He [g0 Hg0] Hrun He'.
  destruct (makeGroupLeader_post w this others e g0 w' He Hg0 Hrun)
    as (e2 & g' & He2 & Hg' & Hleader & Hhid & _).
  rewrite He' in He2. injection He2 as <-.
  revert Hhid. exec. intros [= Hhid].
  intros g Hg. rewrite Hg' in Hg. injection Hg as <-.
  rewrite Hhid, Hleader.
  split; [split; [discriminate | intros ne; contradiction]
         | intros ne; contradiction].
Qed.

Lemma group_consistent_returns w this leader others e :
  leader <> this ->
  elements w !! this = Some e ->
  is_Some (Get_Group e) ->
  group_consistent this e ->
  (exists w', makeGroupMember this leader w = Done tt w')
  /\ (exists w', makeGroupLeader this others w = Done tt w').
Proof.
  intros Hne He [g Hg] C. destruct (C g Hg) as [Chid Cothers]. split.
  - apply (makeGroupMember_returns_iff w this leader e g Hne He Hg).
    intros led. split; [apply Chid, led | apply Cothers, led].
  - apply (makeGroupLeader_returns_iff w this others e g He Hg).
    intros own. destruct (hasFlag (_flags e) HiddenByGroup); [| reflexivity].
    destruct Chid as [Chid _]. contradiction (Chid eq_refl own).
Qed.

(** ** The consistency of elements with their groups *)

Lemma groups_kept_refl w : groups_kept w w.
Proof. intros p e' He'. exists e'. auto. Qed.

Lemma groups_kept_trans w1 w2 w3 :
  groups_kept w1 w2 -> groups_kept w2 w3 -> groups_kept w1 w3.
Proof.
  intros K12 K23 p e3 He3.
  destruct (K23 p e3 He3) as (e2 & He2 & G23 & F23).
  destruct (K12 p e2 He2) as (e1 & He1 & G12 & F12).
  exists e1. split; [exact He1 |]. split; congruence.
Qed.

Lemma groups_kept_same_elements w w' :
  elements w' = elements w -> groups_kept w w'.
Proof. intros E p e' He'. rewrite E in He'. exists e'. auto. Qed.

Lemma consistent_kept w w' :
  all_consistent w -> groups_kept w w' -> all_consistent w'.
Proof.
  intros C K p e' He'. destruct (K p e' He') as (e & He & G & F).
  intros g Hg. rewrite G in Hg. rewrite F. exact (C p e He g Hg).
Qed.

Lemma keeps_ret {A} (a : A) : keeps_groups (mret a).
Proof. intros w a' w' [= _ <-]. apply groups_kept_refl. Qed.

Lemma keeps_stop {A} (why : Failure) : keeps_groups (stop (A := A) why).
Proof. intros w a w' [=]. Qed.

Lemma keeps_bind {A B} (m : Run A) (k : A -> Run B) :
  keeps_groups m -> (forall a, keeps_groups (k a)) -> keeps_groups (m ≫= k).
Proof.
  intros Km Kk w b w'. unfold mbind, Run_bind.
  destruct (m w) as [a w1 |] eqn:E; [| discriminate].
  intros Hk. eapply groups_kept_trans; [eapply Km, E | eapply Kk, Hk].
Qed.

Lemma keeps_load {A} (find : World -> option A) : keeps_groups (load find).
Proof.
  intros w a w'. unfold load. destruct (find w); [| discriminate].
  intros [= _ <-]. apply groups_kept_refl.
Qed.

Lemma keeps_check (why : Failure) b : keeps_groups (check why b).
Proof. destruct b; [apply keeps_ret | apply keeps_stop]. Qed.

Lemma keeps_call r : keeps_groups (call r).
Proof. intros w a w' [= _ <-]. apply groups_kept_same_elements. reflexivity. Qed.

Lemma keeps_store_item p (i : HistoryItem) : keeps_groups (store_item p i).
Proof. intros w a w' [= _ <-]. apply groups_kept_same_elements. reflexivity. Qed.

(** An update of one element that touches neither its group nor
    [HiddenByGroup]. *)
Lemma keeps_update_element this (change : Element -> Element) :
  (forall e, Get_Group (change e) = Get_Group e
             /\ hasFlag (_flags (change e)) HiddenByGroup
                = hasFlag (_flags e) HiddenByGroup) ->
  keeps_groups (update_element this change).
Proof.
  intros H w a w'. unfold update_element. exec.
  destruct (elements w !! this) as [e |] eqn:He; [| discriminate].
  intros [= _ <-] p e'. simpl. destruct (decide (this = p)) as [<- | ne].
  - rewrite lookup_insert_eq. intros [= <-]. exists e.
    split; [exact He | apply H].
  - rewrite lookup_insert_ne by exact ne. intros He'. exists e'. auto.
Qed.

Lemma keeps_addFlag this f :
  f <> HiddenByGroup ->
  keeps_groups (update_element this (fun e => set_flags e (addFlag (_flags e) f))).
Proof.
  intros ne. apply keeps_update_element. intros e. split; [reflexivity |].
  apply hasFlag_addFlag_ne, ne.
Qed.

Lemma keeps_removeFlag this f :
  f <> HiddenByGroup ->
  keeps_groups (update_element this (fun e => set_flags e (removeFlag (_flags e) f))).
Proof.
  intros ne. apply keeps_update_element. intros e. split; [reflexivity |].
  apply hasFlag_removeFlag_ne, ne.
Qed.

Create HintDb keeps discriminated.
#[local] Hint Resolve keeps_ret keeps_stop keeps_load keeps_check keeps_call
  keeps_store_item keeps_addFlag keeps_removeFlag : keeps.

#[local] Hint Extern 1 (_ <> _) => discriminate : keeps.

Ltac keeps :=
  repeat first
    [ solve [auto with keeps]
    | apply keeps_bind; [| intros ? ]
    | progress unfold data, media, deref_element, deref_item, deref_block,
        Expects, Assert, Ensures
    | match goal with
      | |- keeps_groups (if ?c then _ else _) => destruct c
      | |- keeps_groups (match ?c with _ => _ end) => destruct c
      end ].

Lemma keeps_field this (change : Element -> Element) :
  (forall e, Get_Group (change e) = Get_Group e) ->
  (forall e, _flags (change e) = _flags e) ->
  keeps_groups (update_element this change).
Proof.
  intros G F. apply keeps_update_element. intros e. rewrite G, F. auto.
Qed.

Lemma keeps_countCurrentSize this newWidth :
  keeps_groups (countCurrentSize this newWidth).
Proof. unfold countCurrentSize. keeps. Qed.

Lemma keeps_setY this y : keeps_groups (setY this y).
Proof. apply keeps_field; reflexivity. Qed.

Lemma keeps_attachToBlock this block index :
  keeps_groups (attachToBlock this block index).
Proof.
  pose proof (keeps_field this (fun e => set_block e (Some block))
                (fun _ => eq_refl) (fun _ => eq_refl)).
  pose proof (keeps_field this (fun e => set_indexInBlock e index)
                (fun _ => eq_refl) (fun _ => eq_refl)).
  unfold attachToBlock. keeps.
Qed.

Lemma keeps_setIndexInBlock this index :
  keeps_groups (setIndexInBlock this index).
Proof.
  pose proof (keeps_field this (fun e => set_indexInBlock e index)
                (fun _ => eq_refl) (fun _ => eq_refl)).
  unfold setIndexInBlock. keeps.
Qed.

Lemma keeps_environment (items' : gmap ptr HistoryItem)
    (blocks' : gmap ptr HistoryBlock) :
  keeps_groups (environment items' blocks').
Proof. intros w a w' [= _ <-]. apply groups_kept_same_elements. reflexivity. Qed.

(** Dropping the group of an element leaves nothing to be consistent
    with. *)
Lemma validateGroupId_consistent w this w' :
  all_consistent w ->
  validateGroupId this w = Done tt w' ->
  all_consistent w'.
Proof.
  intros C. unfold validateGroupId, groupIdValidityChanged. exec.
  destruct (elements w !! this) as [e |] eqn:He; [| discriminate]. exec.
  destruct (bool_decide (is_Some (Get_Group e))); exec;
    [| intros [= <-]; exact C].
  destruct (match _media e with Some m => canBeGrouped m | None => false end);
    exec; intros [= <-]; [exact C |].
  intros p e'. simpl. destruct (decide (this = p)) as [<- | ne].
  - rewrite lookup_insert_eq. intros [= <-] g Hg. discriminate.
  - rewrite lookup_insert_ne by exact ne. apply C.
Qed.

Lemma keeps_setPendingResize this : keeps_groups (setPendingResize this).
Proof. unfold setPendingResize. keeps. Qed.

Lemma keeps_setAttachToNext this b : keeps_groups (setAttachToNext this b).
Proof. unfold setAttachToNext. keeps. Qed.

Lemma keeps_setAttachToPrevious this b : keeps_groups (setAttachToPrevious this b).
Proof.
  pose proof (keeps_setPendingResize this). unfold setAttachToPrevious. keeps.
Qed.

Lemma keeps_setDisplayDate this b : keeps_groups (setDisplayDate this b).
Proof.
  pose proof (keeps_setPendingResize this). unfold setDisplayDate. keeps.
Qed.

Lemma keeps_previousInBlocks this : keeps_groups (previousInBlocks this).
Proof. unfold previousInBlocks, index, back. keeps. Qed.

Lemma keeps_computeIsAttachToPrevious this previous :
  keeps_groups (computeIsAttachToPrevious this previous).
Proof. unfold computeIsAttachToPrevious. keeps. Qed.

Lemma keeps_recountAttachToPreviousInBlocks this :
  keeps_groups (recountAttachToPreviousInBlocks this).
Proof.
  pose proof (keeps_previousInBlocks this).
  pose proof (keeps_setAttachToPrevious this).
  pose proof keeps_computeIsAttachToPrevious.
  pose proof keeps_setAttachToNext.
  unfold recountAttachToPreviousInBlocks. keeps.
Qed.

Lemma keeps_recountDisplayDateInBlocks this :
  keeps_groups (recountDisplayDateInBlocks this).
Proof.
  pose proof (keeps_previousInBlocks this).
  pose proof (keeps_setDisplayDate this).
  unfold recountDisplayDateInBlocks, displayDate_in_blocks. keeps.
Qed.

(** A call that rebuilds one element, consistently, keeps all elements
    consistent. *)
Lemma consistent_insert w this e' w' :
  all_consistent w ->
  group_consistent this e' ->
  elements w' = <[this := e']> (elements w) ->
  all_consistent w'.
Proof.
  intros C Ce' E p e He. rewrite E in He.
  destruct (decide (this = p)) as [<- | ne].
  - rewrite lookup_insert_eq in He. injection He as <-. exact Ce'.
  - rewrite lookup_insert_ne in He by exact ne. exact (C p e He).
Qed.

Lemma Element_new_elements w this d context w' :
  Element_new this d context w = Done tt w' ->
  exists e', elements w' = <[this := e']> (elements w).
Proof.
  unfold Element_new, initGroup. exec.
  destruct (items w !! d) as [i |] eqn:Hi; [| discriminate]. exec.
  destruct (groupId_of_item i =? 0); exec; rewrite ?insert_insert_eq;
    intros [= <-]; eexists; reflexivity.
Qed.

Lemma makeGroupMember_Done w this leader w' :
  makeGroupMember this leader w = Done tt w' ->
  leader <> this
  /\ exists e, elements w !! this = Some e /\ is_Some (Get_Group e).
Proof.
  unfold makeGroupMember, makeGroupMember_body. exec.
  destruct (bool_decide (leader <> this)) eqn:Hne; exec; [| discriminate].
  apply bool_decide_eq_true in Hne.
  destruct (elements w !! this) as [e |] eqn:He; [| discriminate]. exec.
  destruct (Get_Group e) as [g |] eqn:Hg; [| discriminate].
  intros _. split; [exact Hne | eauto].
Qed.

Lemma makeGroupLeader_Done w this others w' :
  makeGroupLeader this others w = Done tt w' ->
  exists e, elements w !! this = Some e /\ is_Some (Get_Group e).
Proof.
  unfold makeGroupLeader, makeGroupLeader_body. exec.
  destruct (elements w !! this) as [e |] eqn:He; [| discriminate]. exec.
  destruct (Get_Group e) as [g |] eqn:Hg; [| discriminate].
  intros _. eauto.
Qed.

(** Every modelled call keeps all elements consistent with their
    groups, provided new elements do not start hidden. *)
Lemma run_consistent c w w' :
  hasFlag initialFlags HiddenByGroup = false ->
  all_consistent w ->
  run c w = Done tt w' ->
  all_consistent w'.
Proof.
  intros H0 C. destruct c as [this d context | this leader | this others
                              | this | this b | this b | this b | this | this | this
                              | this | this newWidth | this y
                              | this block index | this index | items' blocks'];
    simpl; intros Hrun.
  - destruct (Element_new_elements w this d context w' Hrun) as [e' E].
    apply (consistent_insert w this e' w' C); [| exact E].
    apply (constructed_group_consistent w this d context w' e' H0 Hrun).
    rewrite E. apply lookup_insert_eq.
  - destruct (makeGroupMember_Done w this leader w' Hrun)
      as (Hne & e & He & [g Hg]).
    destruct (makeGroupMember_run w this leader e g Hne He Hg)
      as (e' & rs & _ & _ & _ & Hshape).
    rewrite Hrun in Hshape.
    destruct (_ && _); [| discriminate]. injection Hshape as ->.
    apply (consistent_insert w this e' _ C); [| reflexivity].
    apply (makeGroupMember_group_consistent w this leader e _ e' Hne He
             (ex_intro _ g Hg) Hrun).
    apply lookup_insert_eq.
  - destruct (makeGroupLeader_Done w this others w' Hrun) as (e & He & [g Hg]).
    destruct (makeGroupLeader_body_effect w this others e g He Hg)
      as (e' & rs & Hbody & _).
    assert (E : elements w' = <[this := e']> (elements w)).
    { revert Hrun. unfold makeGroupLeader. exec. rewrite Hbody. exec.
      destruct (hasFlag (_flags e') HiddenByGroup); exec; [discriminate |].
      intros [= <-]. reflexivity. }
    apply (consistent_insert w this e' w' C); [| exact E].
    apply (makeGroupLeader_group_consistent w this others e w' e' He
             (ex_intro _ g Hg) Hrun).
    rewrite E. apply lookup_insert_eq.
  - eapply consistent_kept, keeps_setPendingResize, Hrun. exact C.
  - eapply consistent_kept, keeps_setAttachToNext, Hrun. exact C.
  - eapply consistent_kept, keeps_setAttachToPrevious, Hrun. exact C.
  - eapply consistent_kept, keeps_setDisplayDate, Hrun. exact C.
  - eapply consistent_kept, keeps_recountAttachToPreviousInBlocks, Hrun. exact C.
  - eapply consistent_kept, keeps_recountDisplayDateInBlocks, Hrun. exact C.
  - eapply consistent_kept, keeps_setAttachToNext, Hrun. exact C.
  - exact (validateGroupId_consistent w this w' C Hrun).
  - eapply consistent_kept, keeps_countCurrentSize, Hrun. exact C.
  - eapply consistent_kept, keeps_setY, Hrun. exact C.
  - eapply consistent_kept, keeps_attachToBlock, Hrun. exact C.
  - eapply consistent_kept, keeps_setIndexInBlock, Hrun. exact C.
  - eapply consistent_kept, keeps_environment, Hrun. exact C.
Qed.

Lemma reachable_run_all cs w w' :
  reachable w -> run_all cs w = Done tt w' -> reachable w'.
Proof.
  revert w. induction cs as [| c cs IH]; intros w R; simpl.
  - intros [= <-]. exact R.
  - unfold mbind, Run_bind. destruct (run c w) as [[] w1 |] eqn:E; [| discriminate].
    apply IH. exact (reachable_call w c w1 R E).
Qed.

Lemma reachable_consistent w :
  hasFlag initialFlags HiddenByGroup = false ->
  reachable w -> all_consistent w.
Proof.
  intros H0 R. induction R as [w E | w c w' R IH Hrun].
  - intros p e He. rewrite E, lookup_empty in He. discriminate.
  - exact (run_consistent c w w' H0 IH Hrun).
Qed.

(** In a reachable world the asserted preconditions are enough for
    [makeGroupMember] and [makeGroupLeader] to return. *)
Lemma reachable_returns w this leader others e :
  hasFlag initialFlags HiddenByGroup = false ->
  reachable w ->
  leader <> this ->
  elements w !! this = Some e ->
  is_Some (Get_Group e) ->
  (exists w', makeGroupMember this leader w = Done tt w')
  /\ (exists w', makeGroupLeader this others w = Done tt w').
Proof.
  intros H0 R Hne He Hg.
  apply (group_consistent_returns w this leader others e Hne He Hg).
  exact (reachable_consistent w H0 R this e He).
Qed.

(** C2.  Under the asserted preconditions ([leader] is not the element,
    the element has a [Group]), whenever [makeGroupMember(leader)]
    returns the element is hidden by its group, its [group->others] is
    empty and its [group->leader] is [leader].  The call returns
    exactly from the elements that lead themselves or are already
    hidden with no members; when new elements do not start hidden, that
    is every element of a reachable world. *)
Theorem makeGroupMember_ensures w this leader e (g : Group.t) :
  leader <> this ->
  elements w !! this = Some e ->
  Get_Group e = Some g ->
  (forall w',
      makeGroupMember this leader w = Done tt w' ->
      exists e' (g' : Group.t),
        elements w' !! this = Some e'
        /\ Get_Group e' = Some g'
        /\ isHiddenByGroup this w' = Done true w'
        /\ Group.others g' = []
        /\ Group.leader g' = Some leader)
  /\ ((exists w', makeGroupMember this leader w = Done tt w')
      <-> (Group.leader g <> Some this ->
           hasFlag (_flags e) HiddenByGroup = true /\ Group.others g = []))
  /\ (hasFlag initialFlags HiddenByGroup = false -> reachable w ->
      exists w', makeGroupMember this leader w = Done tt w').
Proof.
  intros Hne He Hg. split; [| split].
  - intros w'. apply (makeGroupMember_post w this leader e g w' Hne He Hg).
  - apply (makeGroupMember_returns_iff w this leader e g Hne He Hg).
  - intros H0 R.
    apply (reachable_returns w this leader [] e H0 R Hne He). eauto.
Qed.

(** C6.  For an element with a [Group], whenever
    [makeGroupLeader(others)] returns the element leads its group, is
    not hidden by it, holds [others] as the members, and, when its
    media could not take the group and [others] is not empty, has a
    [HistoryGroupedMedia] over [others] as its media.  The call returns
    exactly from the elements that another one led or that were not
    hidden; when new elements do not start hidden, that is every
    element of a reachable world. *)
Theorem makeGroupLeader_ensures w this others e (g : Group.t) :
  elements w !! this = Some e ->
  Get_Group e = Some g ->
  (forall w',
      makeGroupLeader this others w = Done tt w' ->
      exists e' (g' : Group.t),
        elements w' !! this = Some e'
        /\ Get_Group e' = Some g'
        /\ Group.leader g' = Some this
        /\ isHiddenByGroup this w' = Done false w'
        /\ Group.others g' = others
        /\ (cannot_take_group (_media e) others = true -> others <> [] ->
            _media e' = Some (HistoryGroupedMedia this others)))
  /\ ((exists w', makeGroupLeader this others w = Done tt w')
      <-> (Group.leader g = Some this ->
           hasFlag (_flags e) HiddenByGroup = false))
  /\ (hasFlag initialFlags HiddenByGroup = false -> reachable w ->
      exists w', makeGroupLeader this others w = Done tt w').
Proof.
  intros He Hg. split; [| split].
  - intros w'. apply (makeGroupLeader_post w this others e g w' He Hg).
  - apply (makeGroupLeader_returns_iff w this others e g He Hg).
  - intros H0 R. apply (makeGroupLeader_returns_iff w this others e g He Hg).
    intros own. destruct (reachable_consistent w H0 R this e He g Hg) as [hid _].
    destruct (hasFlag (_flags e) HiddenByGroup); [| reflexivity].
    contradiction (proj1 hid eq_refl own).
Qed.

(** ** Position in the blocks *)

(** Looking for the previous element changes nothing. *)
Lemma previousInBlocks_pure w this r w' :
  previousInBlocks this w = Done r w' -> w' = w.
Proof.
  unfold previousInBlocks, index, back. exec.
  repeat (case_match; exec); congruence.
Qed.

Lemma hasFlag_outside_two f g h old new :
  f <> h -> g <> h -> outside_two_unchanged f g old new ->
  hasFlag new h = hasFlag old h.
Proof.
  intros Hf Hg U. unfold hasFlag. f_equal. f_equal.
  apply Z.bits_inj'. intros n _.
  pose proof (disjoint_bits f h n Hf) as Df.
  pose proof (disjoint_bits g h n Hg) as Dg.
  rewrite !Z.land_spec.
  destruct (Z.testbit (value f) n) eqn:F; simpl in Df;
    [rewrite Df, !andb_false_r; reflexivity |].
  destruct (Z.testbit (value g) n) eqn:G; simpl in Dg;
    [rewrite Dg, !andb_false_r; reflexivity |].
  rewrite (U n F G). reflexivity.
Qed.

(** ** [recountAttachToPreviousInBlocks] *)

(** C5.  After [recountAttachToPreviousInBlocks]: with a previous
    element in the blocks, its attached-to-next flag and this element's
    attached-to-previous flag both read what
    [computeIsAttachToPrevious(previous)] returned; with none, this
    element's attached-to-previous flag reads [false]. *)
Theorem recountAttachToPreviousInBlocks_flags w this e previous :
  elements w !! this = Some e ->
  is_Some (items w !! _data e) ->
  previousInBlocks this w = Done previous w ->
  (forall p, previous = Some p -> is_Some (item_at w p)) ->
  exists w',
    recountAttachToPreviousInBlocks this w = Done tt w'
    /\ match previous with
       | Some p =>
         exists b,
           computeIsAttachToPrevious this p w = Done b w
           /\ isAttachedToNext p w' = Done b w'
           /\ isAttachedToPrevious this w' = Done b w'
       | None => isAttachedToPrevious this w' = Done false w'
       end.
Proof.
  intros He [item Hitem] Hprevious Hp.
  unfold recountAttachToPreviousInBlocks. exec. rewrite Hprevious.
  destruct previous as [p |]; exec.
  - destruct (Hp p eq_refl) as [prev Hprev]. unfold item_at in Hprev.
    destruct (elements w !! p) as [pe |] eqn:Hpe; [| discriminate].
    simpl in Hprev.
    rewrite (computeIsAttachToPrevious_run w this p e pe item prev)
      by assumption.
    set (b := negb _ && _ && _ && _).
    destruct (setAttachToNext_effect w p pe b Hpe)
      as (fl1 & rs1 & Hnext & Hb1 & Hout1 & _).
    rewrite Hnext. exec.
    set (w1 := {| elements := <[p := set_flags pe fl1]> (elements w);
                  items := items w; blocks := blocks w;
                  requests := requests w ++ rs1 |}).
    assert (exists e1, elements w1 !! this = Some e1
                       /\ _data e1 = _data e /\ _context e1 = _context e
                       /\ (p = this -> _flags e1 = fl1))
      as (e1 & He1 & Hd1 & Hc1 & Hf1).
    { simpl. destruct (decide (p = this)) as [-> | ne].
      - rewrite lookup_insert_eq. eexists. split; [reflexivity |].
        rewrite Hpe in He. injection He as <-. auto.
      - rewrite lookup_insert_ne by exact ne.
        exists e. repeat split; try assumption. intros; contradiction. }
    destruct (setAttachToPrevious_effect w1 this e1 b He1)
      as (fl2 & rs2 & Hprevrun & Hb2 & Hout2 & _).
    { intros _. simpl. rewrite Hd1, Hitem. eauto. }
    rewrite Hprevrun. eexists. split; [reflexivity |].
    exists b. split; [reflexivity |]. exec. split; [| rewrite Hb2; reflexivity].
    destruct (decide (p = this)) as [-> | ne].
    + rewrite lookup_insert_eq. simpl.
      rewrite (hasFlag_outside_two AttachedToPrevious NeedsResize AttachedToNext
                 (_flags e1) fl2) by (discriminate || exact Hout2).
      rewrite (Hf1 eq_refl), Hb1. reflexivity.
    + rewrite lookup_insert_ne by congruence. rewrite lookup_insert_eq. simpl.
      rewrite Hb1. reflexivity.
  - destruct (setAttachToPrevious_effect w this e false He)
      as (fl2 & rs2 & Hprevrun & Hb2 & _).
    { intros _. rewrite Hitem. eauto. }
    rewrite Hprevrun. eexists. split; [reflexivity |].
    exec. rewrite Hb2. reflexivity.
Qed.

(** ** The date separator *)

Lemma set_HistoryMessageDate_same (i : HistoryItem) :
  set_HistoryMessageDate i (Get_HistoryMessageDate i) = i.
Proof. destruct i; reflexivity. Qed.

(** [setDisplayDate(b)] returns with the component present exactly when
    [b]; it touches nothing when that was so before, and otherwise
    changes only the component and leaves the element pending a
    resize. *)
Lemma setDisplayDate_effect w this e (i : HistoryItem) b :
  elements w !! this = Some e ->
  items w !! _data e = Some i ->
  exists w' i',
    setDisplayDate this b w = Done tt w'
    /\ items w' !! _data e = Some i'
    /\ Has_HistoryMessageDate i' = b
    /\ i' = set_HistoryMessageDate i (Get_HistoryMessageDate i')
    /\ (Has_HistoryMessageDate i = false -> b = true ->
        Get_HistoryMessageDate i' = Some {| inited := Some (date i) |})
    /\ (Has_HistoryMessageDate i = b -> w' = w)
    /\ (Has_HistoryMessageDate i <> b -> pendingResize this w' = Done true w').
Proof.
  intros He Hi. unfold setDisplayDate. exec.
  assert (changed : forall c,
    bool_decide (is_Some c) = b ->
    Has_HistoryMessageDate i <> b ->
    (Has_HistoryMessageDate i = false -> b = true ->
     c = Some {| inited := Some (date i) |}) ->
    exists w' i',
      setPendingResize this
        {| elements := elements w;
           items := <[_data e := set_HistoryMessageDate i c]> (items w);
           blocks := blocks w; requests := requests w |}
      = Done tt w'
      /\ items w' !! _data e = Some i'
      /\ Has_HistoryMessageDate i' = b
      /\ i' = set_HistoryMessageDate i (Get_HistoryMessageDate i')
      /\ (Has_HistoryMessageDate i = false -> b = true ->
          Get_HistoryMessageDate i' = Some {| inited := Some (date i) |})
      /\ (Has_HistoryMessageDate i = b -> w' = w)
      /\ (Has_HistoryMessageDate i <> b -> pendingResize this w' = Done true w')).
  { intros c Hc Hne Hinit.
    edestruct (setPendingResize_effect
                 {| elements := elements w;
                    items := <[_data e := set_HistoryMessageDate i c]> (items w);
                    blocks := blocks w; requests := requests w |}
                 this e He) as [rs Hrs].
    - intros _. simpl. rewrite lookup_insert_eq. eauto.
    - rewrite Hrs. eexists _, (set_HistoryMessageDate i c).
      split; [reflexivity |]. simpl.
      split; [apply lookup_insert_eq |]. split; [exact Hc |].
      split; [reflexivity |]. split; [exact Hinit |].
      split; [intros; contradiction |].
      intros _. exec. rewrite hasFlag_addFlag. reflexivity. }
  assert (same : Has_HistoryMessageDate i = b ->
    exists w' i',
      Done tt w = Done tt w'
      /\ items w' !! _data e = Some i'
      /\ Has_HistoryMessageDate i' = b
      /\ i' = set_HistoryMessageDate i (Get_HistoryMessageDate i')
      /\ (Has_HistoryMessageDate i = false -> b = true ->
          Get_HistoryMessageDate i' = Some {| inited := Some (date i) |})
      /\ (Has_HistoryMessageDate i = b -> w' = w)
      /\ (Has_HistoryMessageDate i <> b -> pendingResize this w' = Done true w')).
  { intros E. exists w, i. split; [reflexivity |]. split; [exact Hi |].
    split; [exact E |]. split; [symmetry; apply set_HistoryMessageDate_same |].
    split; [intros E1 E2; congruence |].
    split; [reflexivity | intros; contradiction]. }
  destruct b, (Has_HistoryMessageDate i) eqn:E; exec.
  - apply same. reflexivity.
  - rewrite insert_insert_eq. apply changed; [reflexivity | discriminate | reflexivity].
  - apply changed; [reflexivity | discriminate | discriminate].
  - apply same. reflexivity.
Qed.

(** What the lambda of [recountDisplayDateInBlocks] returns. *)
Lemma displayDate_in_blocks_run w this e (i : HistoryItem) previous :
  elements w !! this = Some e ->
  items w !! _data e = Some i ->
  (isEmpty i = false ->
   previousInBlocks this w = Done previous w
   /\ forall p, previous = Some p -> is_Some (item_at w p)) ->
  exists b,
    displayDate_in_blocks this w = Done b w
    /\ (b = true <->
        isEmpty i = false
        /\ (previous = None
            \/ exists p prev,
                 previous = Some p /\ item_at w p = Some prev
                 /\ (isEmpty prev = true
                     \/ date_of (date prev) <> date_of (date i)))).
Proof.
  intros He Hi Hprevious. unfold displayDate_in_blocks. exec.
  destruct (isEmpty i) eqn:Emp; exec.
  - exists false. split; [reflexivity |].
    split; [discriminate | intros [? _]; discriminate].
  - destruct (Hprevious eq_refl) as [Hrun Hp]. rewrite Hrun.
    destruct previous as [p |]; exec.
    + destruct (Hp p eq_refl) as [prev Hprev]. pose proof Hprev as Hat.
      unfold item_at in Hprev.
      destruct (elements w !! p) as [pe |] eqn:Hpe; [| discriminate].
      simpl in Hprev. exec. eexists. split; [reflexivity |].
      rewrite orb_true_iff, negb_true_iff, bool_decide_eq_false. split.
      * intros H. split; [reflexivity |]. right. exists p, prev. auto.
      * intros [_ [[=] | (p' & prev' & [= <-] & Hat' & H)]].
        rewrite Hat in Hat'. injection Hat' as <-. exact H.
    + exists true. split; [reflexivity |]. split; auto.
Qed.

(** C4.  [recountDisplayDateInBlocks] leaves the [HistoryMessageDate]
    component on the item exactly when the item is not empty and there
    is no previous element in the blocks, or the previous item is
    empty, or its calendar date differs from this item's.
    [setDisplayDate] changes the world only when the presence of the
    component changes, and exactly then leaves the element pending a
    resize. *)
Theorem recountDisplayDateInBlocks_date_separator w this e (i : HistoryItem) previous :
  elements w !! this = Some e ->
  items w !! _data e = Some i ->
  (isEmpty i = false ->
   previousInBlocks this w = Done previous w
   /\ forall p, previous = Some p -> is_Some (item_at w p)) ->
  (exists w' i',
      recountDisplayDateInBlocks this w = Done tt w'
      /\ items w' !! _data e = Some i'
      /\ i' = set_HistoryMessageDate i (Get_HistoryMessageDate i')
      /\ (Has_HistoryMessageDate i' = true <->
          isEmpty i = false
          /\ (previous = None
              \/ exists p prev,
                   previous = Some p /\ item_at w p = Some prev
                   /\ (isEmpty prev = true
                       \/ date_of (date prev) <> date_of (date i))))
      /\ (Has_HistoryMessageDate i' = Has_HistoryMessageDate i -> w' = w)
      /\ (Has_HistoryMessageDate i' <> Has_HistoryMessageDate i ->
          pendingResize this w' = Done true w'))
  /\ (forall b, exists w' i',
         setDisplayDate this b w = Done tt w'
         /\ items w' !! _data e = Some i'
         /\ i' = set_HistoryMessageDate i (Get_HistoryMessageDate i')
         /\ Has_HistoryMessageDate i' = b
         /\ (Has_HistoryMessageDate i = b -> w' = w)
         /\ (Has_HistoryMessageDate i <> b ->
             pendingResize this w' = Done true w')).
Proof.
  intros He Hi Hprevious. split.
  - destruct (displayDate_in_blocks_run w this e i previous He Hi Hprevious)
      as (b & Hb & Hiff).
    destruct (setDisplayDate_effect w this e i b He Hi)
      as (w' & i' & Hrun & Hi' & Hhas & Hframe & _ & Hsame & Hchanged).
    exists w', i'. split; [| split; [exact Hi' | split; [exact Hframe |]]].
    { unfold recountDisplayDateInBlocks. exec. rewrite Hb. exact Hrun. }
    rewrite Hhas. split; [exact Hiff |].
    split; [intros E; apply Hsame; congruence
           | intros E; apply Hchanged; congruence].
  - intros b.
    destruct (setDisplayDate_effect w this e i b He Hi)
      as (w' & i' & Hrun & Hi' & Hhas & Hframe & _ & Hsame & Hchanged).
    exists w', i'. auto 7.
Qed.

(** ** Resizing *)

(** X2.  [setPendingResize()] leaves the element pending a resize; the
    next [countCurrentSize()] calls [initDimensions()] once and clears
    the mark, and a further [countCurrentSize()] only computes the
    size.  None of them touches a flag other than [NeedsResize]. *)
Theorem resize_is_counted_once w this e newWidth :
  elements w !! this = Some e ->
  (_context e = History -> is_Some (items w !! _data e)) ->
  exists w1 w2 w3 e3,
    setPendingResize this w = Done tt w1
    /\ pendingResize this w1 = Done true w1
    /\ countCurrentSize this newWidth w1 = Done tt w2
    /\ pendingResize this w2 = Done false w2
    /\ requests w2
       = requests w1 ++ [initDimensions this; performCountCurrentSize this newWidth]
    /\ countCurrentSize this newWidth w2 = Done tt w3
    /\ requests w3 = requests w2 ++ [performCountCurrentSize this newWidth]
    /\ elements w3 = elements w2
    /\ elements w3 !! this = Some e3
    /\ e3 = set_flags e (_flags e3)
    /\ outside_unchanged NeedsResize (_flags e) (_flags e3).
Proof.
  intros He Hi.
  destruct (setPendingResize_effect w this e He Hi) as [rs Hrun].
  rewrite Hrun. eexists _, _, _, _.
  split; [reflexivity |].
  split; [exec; rewrite hasFlag_addFlag; reflexivity |].
  split; [unfold countCurrentSize; exec; rewrite hasFlag_addFlag; exec;
          rewrite insert_insert_eq, <- app_assoc; reflexivity |].
  split; [exec; rewrite hasFlag_removeFlag; reflexivity |].
  split; [simpl; rewrite <- app_assoc; reflexivity |].
  split; [unfold countCurrentSize; exec; rewrite hasFlag_removeFlag; exec;
          reflexivity |].
  split; [reflexivity |]. split; [reflexivity |].
  split; [apply lookup_insert_eq |]. split; [reflexivity |]. simpl.
  intros n Hn. rewrite (outside_removeFlag _ NeedsResize n Hn).
  apply outside_addFlag, Hn.
Qed.

(** ** The validity of the group *)

(** X3.  [groupIdValidityChanged()] returns [true] exactly when the
    element has a [Group] and no media that can be grouped; it then
    drops the [Group], asks for a resize of the view and touches
    nothing else, and otherwise it changes nothing.  Called again, it
    returns [false] and changes nothing. *)
Theorem groupIdValidityChanged_drops_once w this e :
  elements w !! this = Some e ->
  exists (changed : bool) w',
    groupIdValidityChanged this w = Done changed w'
    /\ (changed = true
        <-> is_Some (Get_Group e)
            /\ (forall m, _media e = Some m -> canBeGrouped m = false))
    /\ (changed = false -> w' = w)
    /\ (changed = true ->
        w' = {| elements := <[this := set_Group e None]> (elements w);
                items := items w; blocks := blocks w;
                requests := requests w ++ [requestViewResize this] |})
    /\ groupIdValidityChanged this w' = Done false w'
    /\ validateGroupId this w = Done tt w'.
Proof.
  intros He. unfold validateGroupId, groupIdValidityChanged. exec.
  destruct (Get_Group e) as [g |] eqn:Hg; exec.
  - destruct (_media e) as [m |] eqn:Hm.
    + destruct (canBeGrouped m) eqn:Hc; exec.
      * exists false, w. split; [reflexivity |].
        split; [split; [discriminate | intros [_ H]; specialize (H m eq_refl); congruence] |].
        split; [reflexivity |]. split; [discriminate |].
        rewrite He. exec. rewrite Hm. exec. rewrite Hc. auto.
      * eexists true, _. split; [reflexivity |].
        split; [split; [intros _; split; [eauto | intros m' [= <-]; exact Hc] | reflexivity] |].
        split; [discriminate |]. split; [reflexivity |]. exec. auto.
    + exec. eexists true, _. split; [reflexivity |].
      split; [split; [intros _; split; [eauto | discriminate] | reflexivity] |].
      split; [discriminate |]. split; [reflexivity |]. exec. auto.
  - exists false, w. split; [reflexivity |].
    split; [split; [discriminate | intros [[g Hg'] _]; discriminate] |].
    split; [reflexivity |]. split; [discriminate |].
    rewrite He. exec. rewrite Hg. auto.
Qed.

(** ** The full group *)

(** X4.  After [makeGroupMember(leader)] has returned, [getFullGroup()]
    on the element is the [Group] of [leader], null when [leader] has
    none; after [makeGroupLeader(others)] has returned it is the
    element's own [Group], which holds [others]. *)
Theorem getFullGroup_after_grouping w this leader others e (g : Group.t) :
  leader <> this ->
  elements w !! this = Some e ->
  Get_Group e = Some g ->
  (forall w' le,
      makeGroupMember this leader w = Done tt w' ->
      elements w !! leader = Some le ->
      getFullGroup this w' = Done (Get_Group le) w')
  /\ (forall w',
         makeGroupLeader this others w = Done tt w' ->
         getFullGroup this w'
         = Done (Some (Group.mk (Group.groupId g) (Some this) others)) w').
Proof.
  intros Hne He Hg. split.
  - intros w' le Hrun Hle.
    destruct (makeGroupMember_run w this leader e g Hne He Hg)
      as (e' & rs & _ & Hgroup & _ & Hshape).
    rewrite Hrun in Hshape. destruct (_ && _); [| discriminate].
    injection Hshape as ->. unfold getFullGroup. exec.
    destruct (decide (Some leader = Some this)) as [[= ->] | _];
      [contradiction |].
    exec. rewrite lookup_insert_ne by congruence. rewrite Hle. reflexivity.
  - intros w' Hrun.
    destruct (makeGroupLeader_body_effect w this others e g He Hg)
      as (e' & rs & Hbody & _ & Hgroup & _).
    revert Hrun. unfold makeGroupLeader. exec. rewrite Hbody. exec.
    destruct (hasFlag (_flags e') HiddenByGroup); exec; [discriminate |].
    intros [= <-]. unfold getFullGroup. exec.
    destruct (decide (Some this = Some this)) as [_ | ne];
      [reflexivity | contradiction].
Qed.

(** X5.  The two grouping calls follow each other: once
    [makeGroupMember] has returned, [makeGroupLeader] returns for any
    members, and once [makeGroupLeader] has returned,
    [makeGroupMember] returns for any other leader. *)
Theorem grouping_calls_alternate w this leader e (g : Group.t) :
  leader <> this ->
  elements w !! this = Some e ->
  Get_Group e = Some g ->
  (forall w1 others,
      makeGroupMember this leader w = Done tt w1 ->
      exists w2, makeGroupLeader this others w1 = Done tt w2)
  /\ (forall w1 others,
         makeGroupLeader this others w = Done tt w1 ->
         exists w2, makeGroupMember this leader w1 = Done tt w2).
Proof.
  intros Hne He Hg. split.
  - intros w1 others Hrun.
    destruct (makeGroupMember_post w this leader e g w1 Hne He Hg Hrun)
      as (e1 & g1 & He1 & Hg1 & _ & _ & Hleader).
    apply (makeGroupLeader_returns_iff w1 this others e1 g1 He1 Hg1).
    rewrite Hleader. intros [= ->]. contradiction.
  - intros w1 others Hrun.
    destruct (makeGroupLeader_post w this others e g w1 He Hg Hrun)
      as (e1 & g1 & He1 & Hg1 & Hleader & _).
    apply (makeGroupMember_returns_iff w1 this leader e1 g1 Hne He1 Hg1).
    rewrite Hleader. intros ne. contradiction.
Qed.

(** ** Repeated calls *)

(** X6.  [setAttachToNext(b)] and [setAttachToPrevious(b)] are
    idempotent: a second call with the same [b] changes nothing and
    issues no further repaint or resize request. *)
Theorem setAttachTo_idempotent w this e b :
  elements w !! this = Some e ->
  (_context e = History -> is_Some (items w !! _data e)) ->
  (exists w1, setAttachToNext this b w = Done tt w1
              /\ setAttachToNext this b w1 = Done tt w1)
  /\ (exists w1, setAttachToPrevious this b w = Done tt w1
                 /\ setAttachToPrevious this b w1 = Done tt w1).
Proof.
  intros He Hi. split.
  - destruct (setAttachToNext_effect w this e b He)
      as (flags & rs & Hrun & Hflag & _).
    eexists. split; [exact Hrun |].
    edestruct (setAttachToNext_effect
                 {| elements := <[this := set_flags e flags]> (elements w);
                    items := items w; blocks := blocks w;
                    requests := requests w ++ rs |}
                 this (set_flags e flags) b)
      as (flags2 & rs2 & Hrun2 & _ & _ & Hsame);
      [apply lookup_insert_eq |].
    destruct (Hsame Hflag) as [-> ->]. rewrite Hrun2. simpl.
    rewrite insert_insert_eq, app_nil_r. reflexivity.
  - destruct (setAttachToPrevious_effect w this e b He Hi)
      as (flags & rs & Hrun & Hflag & _).
    eexists. split; [exact Hrun |].
    edestruct (setAttachToPrevious_effect
                 {| elements := <[this := set_flags e flags]> (elements w);
                    items := items w; blocks := blocks w;
                    requests := requests w ++ rs |}
                 this (set_flags e flags) b)
      as (flags2 & rs2 & Hrun2 & _ & _ & Hsame & _);
      [apply lookup_insert_eq | exact Hi |].
    destruct (Hsame Hflag) as [-> ->]. rewrite Hrun2. simpl.
    rewrite insert_insert_eq, app_nil_r. reflexivity.
Qed.

(** ** The date separator, put and taken *)

(** The world that [setDisplayDate] leaves. *)
Lemma setDisplayDate_shape w this e (i : HistoryItem) b :
  elements w !! this = Some e ->
  items w !! _data e = Some i ->
  exists flags c rs,
    setDisplayDate this b w
    = Done tt {| elements := <[this := set_flags e flags]> (elements w);
                 items := <[_data e := set_HistoryMessageDate i c]> (items w);
                 blocks := blocks w; requests := requests w ++ rs |}
    /\ bool_decide (is_Some c) = b
    /\ (Has_HistoryMessageDate i = b ->
        flags = _flags e /\ c = Get_HistoryMessageDate i /\ rs = [])
    /\ (Has_HistoryMessageDate i = false -> b = true ->
        c = Some {| inited := Some (date i) |})
    /\ (Has_HistoryMessageDate i <> b -> flags = addFlag (_flags e) NeedsResize).
Proof.
  intros He Hi. unfold setDisplayDate. exec.
  assert (changed : forall c,
    bool_decide (is_Some c) = b ->
    Has_HistoryMessageDate i <> b ->
    (Has_HistoryMessageDate i = false -> b = true ->
     c = Some {| inited := Some (date i) |}) ->
    exists flags c' rs,
      setPendingResize this
        {| elements := elements w;
           items := <[_data e := set_HistoryMessageDate i c]> (items w);
           blocks := blocks w; requests := requests w |}
      = Done tt {| elements := <[this := set_flags e flags]> (elements w);
                   items := <[_data e := set_HistoryMessageDate i c']> (items w);
                   blocks := blocks w; requests := requests w ++ rs |}
      /\ bool_decide (is_Some c') = b
      /\ (Has_HistoryMessageDate i = b ->
          flags = _flags e /\ c' = Get_HistoryMessageDate i /\ rs = [])
      /\ (Has_HistoryMessageDate i = false -> b = true ->
          c' = Some {| inited := Some (date i) |})
      /\ (Has_HistoryMessageDate i <> b -> flags = addFlag (_flags e) NeedsResize)).
  { intros c Hc Hne Hinit.
    edestruct (setPendingResize_effect
                 {| elements := elements w;
                    items := <[_data e := set_HistoryMessageDate i c]> (items w);
                    blocks := blocks w; requests := requests w |}
                 this e He) as [rs Hrs].
    - intros _. simpl. rewrite lookup_insert_eq. eauto.
    - rewrite Hrs. eexists _, c, rs. split; [reflexivity |].
      split; [exact Hc |]. split; [intros; contradiction |].
      split; [exact Hinit | reflexivity]. }
  destruct b, (Has_HistoryMessageDate i) eqn:E; exec.
  - exists (_flags e), (Get_HistoryMessageDate i), [].
    rewrite set_flags_same, set_HistoryMessageDate_same, !insert_id, app_nil_r,
      World_same by assumption.
    split; [reflexivity |]. split; [exact E |].
    split; [auto |]. split; [discriminate | intros ne; contradiction].
  - rewrite insert_insert_eq. apply changed; [reflexivity | discriminate | reflexivity].
  - apply changed; [reflexivity | discriminate | discriminate].
  - exists (_flags e), (Get_HistoryMessageDate i), [].
    rewrite set_flags_same, set_HistoryMessageDate_same, !insert_id, app_nil_r,
      World_same by assumption.
    split; [reflexivity |]. split; [exact E |].
    split; [auto |]. split; [discriminate | intros ne; contradiction].
Qed.

(** X7.  On an item without a date separator, [setDisplayDate(true)]
    adds the component initialised with the item's date, and a
    following [setDisplayDate(false)] takes it away again: the items
    and the blocks are as before, and the element is left pending a
    resize. *)
Theorem setDisplayDate_round_trip w this e (i : HistoryItem) :
  elements w !! this = Some e ->
  items w !! _data e = Some i ->
  Has_HistoryMessageDate i = false ->
  exists w1 i1 w2,
    setDisplayDate this true w = Done tt w1
    /\ items w1 !! _data e = Some i1
    /\ Get_HistoryMessageDate i1 = Some {| inited := Some (date i) |}
    /\ setDisplayDate this false w1 = Done tt w2
    /\ items w2 = items w
    /\ blocks w2 = blocks w
    /\ pendingResize this w2 = Done true w2.
Proof.
  intros He Hi Hno.
  destruct (setDisplayDate_shape w this e i true He Hi)
    as (fl1 & c1 & rs1 & Hrun1 & _ & _ & Hinit & Hfl1).
  rewrite (Hinit Hno eq_refl) in Hrun1.
  rewrite Hfl1 in Hrun1 by (rewrite Hno; discriminate).
  edestruct (setDisplayDate_shape
               {| elements := <[this := set_flags e (addFlag (_flags e) NeedsResize)]>
                                (elements w);
                  items := <[_data e := set_HistoryMessageDate i
                                          (Some {| inited := Some (date i) |})]>
                             (items w);
                  blocks := blocks w; requests := requests w ++ rs1 |}
               this (set_flags e (addFlag (_flags e) NeedsResize))
               (set_HistoryMessageDate i (Some {| inited := Some (date i) |})) false)
    as (fl2 & c2 & rs2 & Hrun2 & Hc2 & _ & _ & Hfl2);
    [apply lookup_insert_eq | apply lookup_insert_eq |].
  simpl in Hrun2, Hfl2. rewrite insert_insert_eq in Hrun2.
  rewrite Hfl2 in Hrun2 by discriminate.
  destruct c2 as [c2 |]; [discriminate |].
  eexists _, _, _. split; [exact Hrun1 |]. simpl.
  split; [apply lookup_insert_eq |]. split; [reflexivity |].
  split; [exact Hrun2 |]. simpl.
  split.
  - rewrite insert_insert_eq. apply insert_id. rewrite Hi. f_equal.
    rewrite <- (set_HistoryMessageDate_same i) at 1.
    unfold Has_HistoryMessageDate in Hno.
    destruct (Get_HistoryMessageDate i) as [c |] eqn:Hc; [discriminate |].
    destruct i; simpl in *; subst; reflexivity.
  - split; [reflexivity |]. exec. rewrite hasFlag_addFlag. reflexivity.
Qed.

(** ** Joining a block *)

(** X8.  [attachToBlock(block, index)] returns exactly for an item that
    is no log entry, an element outside the blocks and an index that
    is not negative.  It then records the block and tells the item
    its main view; [indexInBlock()] returns [index] when the block
    holds the element there; and the element cannot be attached a
    second time. *)
Theorem attachToBlock_once w this e (i : HistoryItem) b index :
  elements w !! this = Some e ->
  items w !! _data e = Some i ->
  ((exists w1, attachToBlock this b index w = Done tt w1)
   <-> isLogEntry i = false /\ _block e = None /\ _indexInBlock e < 0
       /\ 0 <= index)
  /\ (forall w1,
         attachToBlock this b index w = Done tt w1 ->
         block this w1 = Done (Some b) w1
         /\ requests w1 = requests w ++ [setMainView (_data e) this]
         /\ items w1 = items w /\ blocks w1 = blocks w
         /\ (forall blk,
                blocks w !! b = Some blk ->
                messages blk !! Z.to_nat index = Some this ->
                indexInBlock this w1 = Done index w1)
         /\ (forall b' index',
                attachToBlock this b' index' w1 = Abort ExpectsFailed)).
Proof.
  intros He Hi. unfold attachToBlock. exec.
  destruct (isLogEntry i) eqn:Hlog; exec;
    [split; [split; [intros [w1 [=]] | intros [[=] _]] | intros w1 [=]] |].
  destruct (_block e) as [b0 |] eqn:Hb; exec;
    [split; [split; [intros [w1 [=]] | intros (_ & [=] & _)] | intros w1 [=]] |].
  destruct (_indexInBlock e <? 0) eqn:Hneg; exec;
    [| split; [split; [intros [w1 [=]] | lia] | intros w1 [=]]].
  destruct (0 <=? index) eqn:Hindex; exec;
    [| split; [split; [intros [w1 [=]] | lia] | intros w1 [=]]].
  rewrite insert_insert_eq.
  split; [split; [intros _; repeat split; lia | eauto] |].
  intros w1 [= <-]. unfold block, indexInBlock. exec. rewrite Hindex. exec.
  repeat (split; [reflexivity |]). split.
  - intros blk Hblk Hat. rewrite Hblk. unfold HistoryView.index. exec.
    rewrite Hindex. exec. rewrite bool_decide_true by reflexivity.
    reflexivity.
  - intros b' index'. exec. rewrite Hlog. exec. reflexivity.
Qed.

(** ** A change of the previous element *)

(** [previousInBlocks] reads the position of the element and the
    blocks, nothing else. *)
Lemma previousInBlocks_position w w1 this e e1 r :
  elements w !! this = Some e ->
  elements w1 !! this = Some e1 ->
  _block e1 = _block e ->
  _indexInBlock e1 = _indexInBlock e ->
  blocks w1 = blocks w ->
  previousInBlocks this w = Done r w ->
  previousInBlocks this w1 = Done r w1.
Proof.
  intros He He1 Hb Hi Hblocks.
  unfold previousInBlocks, HistoryView.index, back. exec.
  rewrite Hb, Hi.
  destruct (_block e) as [b0 |]; exec; [| intros [= <-]; reflexivity].
  destruct (0 <=? _indexInBlock e); exec; [| intros [= <-]; reflexivity].
  destruct (0 <? _indexInBlock e); exec; rewrite Hblocks;
    (destruct (blocks w !! b0) as [blk |]; exec; [| discriminate]).
  - repeat (case_match; exec); intros; simplify_eq;
      first [reflexivity | congruence].
  - destruct (previousBlock blk) as [pb |]; exec;
      [| intros [= <-]; reflexivity].
    rewrite Hblocks.
    repeat (case_match; exec); intros; simplify_eq;
      first [reflexivity | congruence].
Qed.

(** What [recountAttachToPreviousInBlocks] leaves, items and blocks
    included. *)
Lemma recountAttachToPreviousInBlocks_effect w this e previous :
  elements w !! this = Some e ->
  is_Some (items w !! _data e) ->
  previousInBlocks this w = Done previous w ->
  (forall p, previous = Some p -> is_Some (item_at w p)) ->
  exists w',
    recountAttachToPreviousInBlocks this w = Done tt w'
    /\ items w' = items w
    /\ blocks w' = blocks w
    /\ match previous with
       | Some p =>
         exists b,
           computeIsAttachToPrevious this p w = Done b w
           /\ isAttachedToNext p w' = Done b w'
           /\ isAttachedToPrevious this w' = Done b w'
       | None => isAttachedToPrevious this w' = Done false w'
       end.
Proof.
  intros He [item Hitem] Hprevious Hp.
  unfold recountAttachToPreviousInBlocks. exec. rewrite Hprevious.
  destruct previous as [p |]; exec.
  - destruct (Hp p eq_refl) as [prev Hprev]. unfold item_at in Hprev.
    destruct (elements w !! p) as [pe |] eqn:Hpe; [| discriminate].
    simpl in Hprev.
    rewrite (computeIsAttachToPrevious_run w this p e pe item prev)
      by assumption.
    set (b := negb _ && _ && _ && _).
    destruct (setAttachToNext_effect w p pe b Hpe)
      as (fl1 & rs1 & Hnext & Hb1 & Hout1 & _).
    rewrite Hnext. exec.
    set (w1 := {| elements := <[p := set_flags pe fl1]> (elements w);
                  items := items w; blocks := blocks w;
                  requests := requests w ++ rs1 |}).
    assert (exists e1, elements w1 !! this = Some e1
                       /\ _data e1 = _data e /\ _context e1 = _context e
                       /\ (p = this -> _flags e1 = fl1))
      as (e1 & He1 & Hd1 & Hc1 & Hf1).
    { simpl. destruct (decide (p = this)) as [-> | ne].
      - rewrite lookup_insert_eq. eexists. split; [reflexivity |].
        rewrite Hpe in He. injection He as <-. auto.
      - rewrite lookup_insert_ne by exact ne.
        exists e. repeat split; try assumption. intros; contradiction. }
    destruct (setAttachToPrevious_effect w1 this e1 b He1)
      as (fl2 & rs2 & Hprevrun & Hb2 & Hout2 & _).
    { intros _. simpl. rewrite Hd1, Hitem. eauto. }
    rewrite Hprevrun. eexists. split; [reflexivity |].
    split; [reflexivity |]. split; [reflexivity |].
    exists b. split; [reflexivity |]. exec. split; [| rewrite Hb2; reflexivity].
    destruct (decide (p = this)) as [-> | ne].
    + rewrite lookup_insert_eq. simpl.
      rewrite (hasFlag_outside_two AttachedToPrevious NeedsResize AttachedToNext
                 (_flags e1) fl2) by (discriminate || exact Hout2).
      rewrite (Hf1 eq_refl), Hb1. reflexivity.
    + rewrite lookup_insert_ne by congruence. rewrite lookup_insert_eq. simpl.
      rewrite Hb1. reflexivity.
  - destruct (setAttachToPrevious_effect w this e false He)
      as (fl2 & rs2 & Hprevrun & Hb2 & _).
    { intros _. rewrite Hitem. eauto. }
    rewrite Hprevrun. eexists. split; [reflexivity |].
    split; [reflexivity |]. split; [reflexivity |].
    exec. rewrite Hb2. reflexivity.
Qed.

(** X9.  [previousInBlocksChanged()] never leaves an element both
    under a date separator and attached: when the item comes out with
    a [HistoryMessageDate], the element is not attached to the
    previous one, nor the previous one to it. *)
Theorem previousInBlocksChanged_separates w this e (i : HistoryItem) previous :
  elements w !! this = Some e ->
  items w !! _data e = Some i ->
  previousInBlocks this w = Done previous w ->
  (forall p, previous = Some p -> is_Some (item_at w p)) ->
  exists w' i',
    previousInBlocksChanged this w = Done tt w'
    /\ items w' !! _data e = Some i'
    /\ i' = set_HistoryMessageDate i (Get_HistoryMessageDate i')
    /\ (Has_HistoryMessageDate i' = true ->
        isAttachedToPrevious this w' = Done false w'
        /\ forall p, previous = Some p -> isAttachedToNext p w' = Done false w').
Proof.
  intros He Hi Hprevious Hp.
  destruct (displayDate_in_blocks_run w this e i previous He Hi)
    as (b & Hb & _); [intros _; split; assumption |].
  destruct (setDisplayDate_shape w this e i b He Hi)
    as (fl & c & rs & Hrun & Hc & _).
  set (w1 := {| elements := <[this := set_flags e fl]> (elements w);
                items := <[_data e := set_HistoryMessageDate i c]> (items w);
                blocks := blocks w; requests := requests w ++ rs |}) in *.
  assert (He1 : elements w1 !! this = Some (set_flags e fl))
    by apply lookup_insert_eq.
  assert (Hi1 : items w1 !! _data e = Some (set_HistoryMessageDate i c))
    by apply lookup_insert_eq.
  assert (Hprevious1 : previousInBlocks this w1 = Done previous w1)
    by (apply (previousInBlocks_position w w1 this e (set_flags e fl));
        auto).
  assert (Hp1 : forall p, previous = Some p -> is_Some (item_at w1 p)).
  { intros p Hprev. destruct (Hp p Hprev) as [prev Hat].
    unfold item_at in *. simpl.
    destruct (decide (this = p)) as [<- | ne].
    - rewrite lookup_insert_eq. simpl. rewrite lookup_insert_eq. eauto.
    - rewrite lookup_insert_ne by exact ne.
      destruct (elements w !! p) as [pe |]; [| discriminate]. simpl in *.
      destruct (decide (_data e = _data pe)) as [<- | ned].
      + rewrite lookup_insert_eq. eauto.
      + rewrite lookup_insert_ne by exact ned. eauto. }
  destruct (recountAttachToPreviousInBlocks_effect w1 this (set_flags e fl)
              previous He1 (ex_intro _ _ Hi1) Hprevious1 Hp1)
    as (w' & Hrecount & Hitems & _ & Hflags).
  exists w', (set_HistoryMessageDate i c).
  split.
  { unfold previousInBlocksChanged, recountDisplayDateInBlocks. exec.
    rewrite Hb. exec. rewrite Hrun. exact Hrecount. }
  split; [rewrite Hitems; exact Hi1 |]. split; [reflexivity |].
  intros Hdate. destruct previous as [p |].
  - destruct Hflags as (b' & Hcompute & Hnext & Hprev).
    assert (b' = false) as ->.
    { destruct (Hp1 p eq_refl) as [prev Hat]. unfold item_at in Hat.
      destruct (elements w1 !! p) as [pe |] eqn:Hpe; [| discriminate].
      simpl in Hat.
      rewrite (computeIsAttachToPrevious_run w1 this p (set_flags e fl) pe
                 (set_HistoryMessageDate i c) prev He1 Hi1 Hpe Hat) in Hcompute.
      rewrite Hdate in Hcompute. simpl in Hcompute.
      injection Hcompute as <-. reflexivity. }
    split; [exact Hprev | intros p' [= <-]; exact Hnext].
  - split; [exact Hflags | intros p' [=]].
Qed.

(** ** Neighbours in the blocks *)

Variable nextBlock : ptr -> option ptr.

(** When [previousInBlocks] and [nextInBlocks] return an element, and
    where they found it. *)
Lemma previousInBlocks_Some w b a :
  previousInBlocks b w = Done (Some a) w
  <-> exists eb B blk,
        elements w !! b = Some eb /\ _block eb = Some B
        /\ 0 <= _indexInBlock eb /\ blocks w !! B = Some blk
        /\ ((0 < _indexInBlock eb
             /\ messages blk !! Z.to_nat (_indexInBlock eb - 1) = Some a)
            \/ (_indexInBlock eb = 0
                /\ exists P pblk,
                     previousBlock blk = Some P /\ blocks w !! P = Some pblk
                     /\ last (messages pblk) = Some a)).
Proof.
  unfold previousInBlocks, HistoryView.index, back. exec. split.
  - destruct (elements w !! b) as [eb |] eqn:Heb; exec; [| discriminate].
    destruct (_block eb) as [B |] eqn:HB; exec; [| discriminate].
    destruct (0 <=? _indexInBlock eb) eqn:H0; exec; [| discriminate].
    destruct (0 <? _indexInBlock eb) eqn:H1; exec;
      (destruct (blocks w !! B) as [blk |] eqn:Hblk; exec; [| discriminate]).
    + destruct (0 <=? _indexInBlock eb - 1); exec; [| discriminate].
      destruct (messages blk !! _) as [p |] eqn:Hp; exec; [| discriminate].
      intros [= <-]. exists eb, B, blk. repeat (split; [auto; lia |]).
      left. split; [lia | exact Hp].
    + destruct (previousBlock blk) as [P |] eqn:HP; exec; [| discriminate].
      destruct (blocks w !! P) as [pblk |] eqn:Hpblk; exec; [| discriminate].
      destruct (negb (bool_decide (messages pblk = []))); exec; [| discriminate].
      destruct (last (messages pblk)) as [p |] eqn:Hp; exec; [| discriminate].
      intros [= <-]. exists eb, B, blk. repeat (split; [auto; lia |]).
      right. split; [lia |]. exists P, pblk. auto.
  - intros (eb & B & blk & Heb & HB & H0 & Hblk & Hcase).
    exec. rewrite HB.
    destruct Hcase as [[Hpos Ha] | (Hzero & P & pblk & HP & Hpblk & Ha)].
    + destruct (0 <=? _indexInBlock eb) eqn:E0; [| lia].
      destruct (0 <? _indexInBlock eb) eqn:E1; [| lia]. exec.
      destruct (0 <=? _indexInBlock eb - 1) eqn:E2; [| lia]. exec.
      reflexivity.
    + rewrite Hzero. exec. rewrite HP. exec.
      rewrite bool_decide_false by (intros E; rewrite E in Ha; discriminate).
      exec. rewrite Ha. reflexivity.
Qed.

Lemma nextInBlocks_Some w a b :
  nextInBlocks nextBlock a w = Done (Some b) w
  <-> exists ea B blk,
        elements w !! a = Some ea /\ _block ea = Some B
        /\ 0 <= _indexInBlock ea /\ blocks w !! B = Some blk
        /\ ((_indexInBlock ea + 1 < Z.of_nat (length (messages blk))
             /\ messages blk !! Z.to_nat (_indexInBlock ea + 1) = Some b)
            \/ (Z.of_nat (length (messages blk)) <= _indexInBlock ea + 1
                /\ exists N nblk,
                     nextBlock B = Some N /\ blocks w !! N = Some nblk
                     /\ head (messages nblk) = Some b)).
Proof.
  unfold nextInBlocks, HistoryView.index, front. exec. split.
  - destruct (elements w !! a) as [ea |] eqn:Hea; exec; [| discriminate].
    destruct (_block ea) as [B |] eqn:HB; exec; [| discriminate].
    destruct (0 <=? _indexInBlock ea) eqn:H0; exec; [| discriminate].
    destruct (blocks w !! B) as [blk |] eqn:Hblk; exec; [| discriminate].
    destruct (_indexInBlock ea + 1 <? _) eqn:H1; exec.
    + destruct (0 <=? _indexInBlock ea + 1); exec; [| discriminate].
      destruct (messages blk !! _) as [p |] eqn:Hp; exec; [| discriminate].
      intros [= <-]. exists ea, B, blk. repeat (split; [auto; lia |]).
      left. split; [lia | exact Hp].
    + destruct (nextBlock B) as [N |] eqn:HN; exec; [| discriminate].
      destruct (blocks w !! N) as [nblk |] eqn:Hnblk; exec; [| discriminate].
      destruct (negb (bool_decide (messages nblk = []))); exec; [| discriminate].
      destruct (messages nblk) as [| p rest] eqn:Hp; exec; [discriminate |].
      intros [= <-]. exists ea, B, blk. repeat (split; [auto; lia |]).
      right. split; [lia |]. exists N, nblk. rewrite Hp. auto.
  - intros (ea & B & blk & Hea & HB & H0 & Hblk & Hcase).
    exec. rewrite HB.
    destruct (0 <=? _indexInBlock ea) eqn:E0; [| lia]. exec.
    destruct Hcase as [[Hlt Hb] | (Hge & N & nblk & HN & Hnblk & Hb)].
    + destruct (_indexInBlock ea + 1 <? _) eqn:E1; [| lia]. exec.
      destruct (0 <=? _indexInBlock ea + 1) eqn:E2; [| lia]. exec.
      reflexivity.
    + destruct (_indexInBlock ea + 1 <? _) eqn:E1; [lia |]. exec.
      rewrite HN. exec.
      destruct (messages nblk) as [| p rest]; [discriminate |].
      injection Hb as ->. reflexivity.
Qed.

(** X10.  In blocks that are in order, [nextInBlocks()] and
    [previousInBlocks()] undo each other: [b] is the next element of
    [a] exactly when [a] is the previous element of [b], within one
    block as well as from the last element of a block to the first of
    the next one. *)
Theorem next_and_previous_mirror w a b :
  blocks_in_order nextBlock w ->
  nextInBlocks nextBlock a w = Done (Some b) w
  <-> previousInBlocks b w = Done (Some a) w.
Proof.
  intros [Hstands Hrecorded Hnonempty Hnp Hpn].
  rewrite nextInBlocks_Some, previousInBlocks_Some. split.
  - intros (ea & B & blk & Hea & HB & H0 & Hblk & Hcase).
    destruct (Hstands a ea B Hea HB) as (_ & blk' & Hblk' & Ha).
    rewrite Hblk in Hblk'. injection Hblk' as <-.
    destruct Hcase as [[Hlt Hb] | (Hge & N & nblk & HN & Hnblk & Hb)].
    + destruct (Hrecorded b B (_indexInBlock ea + 1)) as (eb & Heb & HBb & Hib).
      { split; [lia | eauto]. }
      exists eb, B, blk. rewrite Hib.
      repeat (split; [auto; lia |]). left. split; [lia |].
      replace (_indexInBlock ea + 1 - 1) with (_indexInBlock ea) by lia.
      exact Ha.
    + destruct (Hrecorded b N 0) as (eb & Heb & HBb & Hib).
      { split; [lia |]. exists nblk. split; [exact Hnblk |].
        rewrite <- head_lookup. exact Hb. }
      destruct (Hnp B N (ex_intro _ blk Hblk) HN) as (nblk' & Hnblk' & Hprev).
      rewrite Hnblk in Hnblk'. injection Hnblk' as <-.
      exists eb, N, nblk. rewrite Hib.
      repeat (split; [auto; lia |]). right. split; [reflexivity |].
      exists B, blk. split; [exact Hprev |]. split; [exact Hblk |].
      rewrite last_lookup. rewrite <- Ha. f_equal.
      apply lookup_lt_Some in Ha. lia.
  - intros (eb & B & blk & Heb & HB & H0 & Hblk & Hcase).
    destruct (Hstands b eb B Heb HB) as (_ & blk' & Hblk' & Hb).
    rewrite Hblk in Hblk'. injection Hblk' as <-.
    destruct Hcase as [[Hpos Ha] | (Hzero & P & pblk & HP & Hpblk & Ha)].
    + destruct (Hrecorded a B (_indexInBlock eb - 1)) as (ea & Hea & HBa & Hia).
      { split; [lia | eauto]. }
      exists ea, B, blk. rewrite Hia.
      repeat (split; [auto; lia |]). left.
      replace (_indexInBlock eb - 1 + 1) with (_indexInBlock eb) by lia.
      split; [| exact Hb]. apply lookup_lt_Some in Hb. lia.
    + assert (Hlen : messages pblk <> []) by (apply (Hnonempty P), Hpblk).
      destruct (Hrecorded a P (Z.of_nat (length (messages pblk)) - 1))
        as (ea & Hea & HBa & Hia).
      { split; [destruct (messages pblk); [contradiction | simpl; lia] |].
        exists pblk. split; [exact Hpblk |]. rewrite <- Ha, last_lookup.
        f_equal. lia. }
      destruct (Hpn B blk P Hblk HP) as [_ Hnext].
      exists ea, P, pblk. rewrite Hia.
      split; [exact Hea |]. split; [exact HBa |].
      split; [destruct (messages pblk); [contradiction | simpl; lia] |].
      split; [exact Hpblk |]. right. split; [lia |].
      exists B, blk. split; [exact Hnext |]. split; [exact Hblk |].
      rewrite head_lookup. rewrite Hzero in Hb. exact Hb.
Qed.

(** ** What the bookkeeping leaves alone *)

Lemma only_flags_refl w : only_flags_changed w w.
Proof. split; reflexivity. Qed.

Lemma only_flags_trans w1 w2 w3 :
  only_flags_changed w1 w2 -> only_flags_changed w2 w3 ->
  only_flags_changed w1 w3.
Proof.
  intros [B12 E12] [B23 E23]. split; [congruence |].
  intros q. rewrite E23. apply E12.
Qed.

Lemma only_flags_lookup w w' q e :
  only_flags_changed w w' ->
  elements w !! q = Some e ->
  exists flags, elements w' !! q = Some (set_flags e flags).
Proof.
  intros [_ E] He. specialize (E q). rewrite He in E.
  destruct (elements w' !! q) as [e' |]; [| discriminate].
  injection E as E. exists (_flags e').
  destruct e, e'; unfold set_flags in *; simpl in *; simplify_eq.
  reflexivity.
Qed.

Lemma flags_ret {A} (a : A) : changes_only_flags (mret a).
Proof. intros w a' w' [= _ <-]. apply only_flags_refl. Qed.

Lemma flags_stop {A} (why : Failure) : changes_only_flags (stop (A := A) why).
Proof. intros w a w' [=]. Qed.

Lemma flags_bind {A B} (m : Run A) (k : A -> Run B) :
  changes_only_flags m -> (forall a, changes_only_flags (k a)) ->
  changes_only_flags (m ≫= k).
Proof.
  intros Km Kk w b w'. unfold mbind, Run_bind.
  destruct (m w) as [a w1 |] eqn:E; [| discriminate].
  intros Hk. eapply only_flags_trans; [eapply Km, E | eapply Kk, Hk].
Qed.

Lemma flags_load {A} (find : World -> option A) : changes_only_flags (load find).
Proof.
  intros w a w'. unfold load. destruct (find w); [| discriminate].
  intros [= _ <-]. apply only_flags_refl.
Qed.

Lemma flags_check (why : Failure) b : changes_only_flags (check why b).
Proof. destruct b; [apply flags_ret | apply flags_stop]. Qed.

Lemma flags_call r : changes_only_flags (call r).
Proof. intros w a w' [= _ <-]. split; reflexivity. Qed.

Lemma flags_store_item p (i : HistoryItem) : changes_only_flags (store_item p i).
Proof. intros w a w' [= _ <-]. split; reflexivity. Qed.

Lemma flags_update this (change : Z -> Z) :
  changes_only_flags
    (update_element this (fun e => set_flags e (change (_flags e)))).
Proof.
  intros w a w'. unfold update_element. exec.
  destruct (elements w !! this) as [e |] eqn:He; [| discriminate].
  intros [= _ <-]. split; [reflexivity |]. intros q. simpl.
  destruct (decide (this = q)) as [<- | ne].
  - rewrite lookup_insert_eq, He. reflexivity.
  - rewrite lookup_insert_ne by exact ne. reflexivity.
Qed.

Lemma flags_addFlag this f :
  changes_only_flags
    (update_element this (fun e => set_flags e (addFlag (_flags e) f))).
Proof. apply (flags_update this (fun flags => addFlag flags f)). Qed.

Lemma flags_removeFlag this f :
  changes_only_flags
    (update_element this (fun e => set_flags e (removeFlag (_flags e) f))).
Proof. apply (flags_update this (fun flags => removeFlag flags f)). Qed.

Create HintDb flags discriminated.
#[local] Hint Resolve flags_ret flags_stop flags_load flags_check flags_call
  flags_store_item flags_addFlag flags_removeFlag : flags.

Ltac flags :=
  repeat first
    [ solve [auto with flags]
    | apply flags_bind; [| intros ? ]
    | progress unfold data, media, deref_element, deref_item, deref_block,
        Expects, Assert, Ensures
    | match goal with
      | |- changes_only_flags (if ?c then _ else _) => destruct c
      | |- changes_only_flags (match ?c with _ => _ end) => destruct c
      end ].

Lemma flags_setPendingResize this : changes_only_flags (setPendingResize this).
Proof. unfold setPendingResize. flags. Qed.

Lemma flags_setAttachToNext this b : changes_only_flags (setAttachToNext this b).
Proof. unfold setAttachToNext. flags. Qed.

Lemma flags_setAttachToPrevious this b :
  changes_only_flags (setAttachToPrevious this b).
Proof.
  pose proof (flags_setPendingResize this). unfold setAttachToPrevious. flags.
Qed.

Lemma flags_setDisplayDate this b : changes_only_flags (setDisplayDate this b).
Proof.
  pose proof (flags_setPendingResize this). unfold setDisplayDate. flags.
Qed.

Lemma flags_previousInBlocks this : changes_only_flags (previousInBlocks this).
Proof. unfold previousInBlocks, HistoryView.index, back. flags. Qed.

Lemma flags_recountAttachToPreviousInBlocks this :
  changes_only_flags (recountAttachToPreviousInBlocks this).
Proof.
  pose proof (flags_previousInBlocks this).
  pose proof (flags_setAttachToPrevious this).
  pose proof flags_setAttachToNext.
  unfold recountAttachToPreviousInBlocks, computeIsAttachToPrevious. flags.
Qed.

Lemma flags_recountDisplayDateInBlocks this :
  changes_only_flags (recountDisplayDateInBlocks this).
Proof.
  pose proof (flags_previousInBlocks this).
  pose proof (flags_setDisplayDate this).
  unfold recountDisplayDateInBlocks, displayDate_in_blocks. flags.
Qed.

(** X11.  The bookkeeping of attachment and date separator moves no
    element and regroups none: [previousInBlocksChanged()],
    [nextInBlocksChanged()], the two recounts and the three setters
    leave the blocks as they are and, of every element, everything
    but [_flags]. *)
Theorem bookkeeping_changes_only_flags this b :
  changes_only_flags (previousInBlocksChanged this)
  /\ changes_only_flags (nextInBlocksChanged this)
  /\ changes_only_flags (recountDisplayDateInBlocks this)
  /\ changes_only_flags (recountAttachToPreviousInBlocks this)
  /\ changes_only_flags (setDisplayDate this b)
  /\ changes_only_flags (setAttachToNext this b)
  /\ changes_only_flags (setAttachToPrevious this b).
Proof.
  split; [| split; [| split; [| split; [| split; [| split]]]]].
  - unfold previousInBlocksChanged. apply flags_bind.
    + apply flags_recountDisplayDateInBlocks.
    + intros _. apply flags_recountAttachToPreviousInBlocks.
  - apply flags_setAttachToNext.
  - apply flags_recountDisplayDateInBlocks.
  - apply flags_recountAttachToPreviousInBlocks.
  - apply flags_setDisplayDate.
  - apply flags_setAttachToNext.
  - apply flags_setAttachToPrevious.
Qed.

(** ** Recounting twice *)

Lemma displayDate_in_blocks_value w this e (i : HistoryItem) previous :
  elements w !! this = Some e ->
  items w !! _data e = Some i ->
  previousInBlocks this w = Done previous w ->
  (forall p, previous = Some p -> is_Some (item_at w p)) ->
  displayDate_in_blocks this w
  = Done (negb (isEmpty i)
          && match previous with
             | None => true
             | Some p =>
               match item_at w p with
               | Some prev =>
                 isEmpty prev
                 || negb (bool_decide (date_of (date prev) = date_of (date i)))
               | None => false
               end
             end) w.
Proof.
  intros He Hi Hprevious Hp. unfold displayDate_in_blocks. exec.
  destruct (isEmpty i); exec; [reflexivity |]. rewrite Hprevious.
  destruct previous as [p |]; exec; [| reflexivity].
  destruct (Hp p eq_refl) as [prev Hprev]. rewrite Hprev.
  unfold item_at in Hprev.
  destruct (elements w !! p) as [pe |] eqn:Hpe; [| discriminate].
  simpl in Hprev. exec. reflexivity.
Qed.

Lemma setAttachToNext_same w this e :
  elements w !! this = Some e ->
  setAttachToNext this (hasFlag (_flags e) AttachedToNext) w = Done tt w.
Proof.
  intros He. unfold setAttachToNext. exec.
  destruct (hasFlag (_flags e) AttachedToNext); reflexivity.
Qed.

Lemma setAttachToPrevious_same w this e :
  elements w !! this = Some e ->
  setAttachToPrevious this (hasFlag (_flags e) AttachedToPrevious) w = Done tt w.
Proof.
  intros He. unfold setAttachToPrevious. exec.
  destruct (hasFlag (_flags e) AttachedToPrevious); reflexivity.
Qed.

(** What [previousInBlocksChanged] leaves: the date separator as the
    position asks for it, the two flags as the attachment computed
    after that, and otherwise only flags changed. *)
Lemma previousInBlocksChanged_effect w this e (i : HistoryItem) previous :
  elements w !! this = Some e ->
  items w !! _data e = Some i ->
  previousInBlocks this w = Done previous w ->
  (forall p, previous = Some p -> is_Some (item_at w p)) ->
  exists w' c b e',
    previousInBlocksChanged this w = Done tt w'
    /\ displayDate_in_blocks this w = Done (bool_decide (is_Some c)) w
    /\ items w' = <[_data e := set_HistoryMessageDate i c]> (items w)
    /\ only_flags_changed w w'
    /\ elements w' !! this = Some e'
    /\ hasFlag (_flags e') AttachedToPrevious = b
    /\ match previous with
       | None => b = false
       | Some p =>
         computeIsAttachToPrevious this p w' = Done b w'
         /\ exists pe', elements w' !! p = Some pe'
                        /\ hasFlag (_flags pe') AttachedToNext = b
       end.
Proof.
  intros He Hi Hprevious Hp.
  destruct (displayDate_in_blocks_run w this e i previous He Hi)
    as (d & Hd & _); [intros _; split; assumption |].
  destruct (setDisplayDate_shape w this e i d He Hi)
    as (fl & c & rs & Hrun & Hc & _).
  set (w1 := {| elements := <[this := set_flags e fl]> (elements w);
                items := <[_data e := set_HistoryMessageDate i c]> (items w);
                blocks := blocks w; requests := requests w ++ rs |}) in *.
  assert (He1 : elements w1 !! this = Some (set_flags e fl))
    by apply lookup_insert_eq.
  assert (Hi1 : items w1 !! _data e = Some (set_HistoryMessageDate i c))
    by apply lookup_insert_eq.
  assert (Hprevious1 : previousInBlocks this w1 = Done previous w1)
    by (apply (previousInBlocks_position w w1 this e (set_flags e fl));
        auto).
  assert (Hp1 : forall p, previous = Some p -> is_Some (item_at w1 p)).
  { intros p Hprev. destruct (Hp p Hprev) as [prev Hat].
    unfold item_at in *. simpl.
    destruct (decide (this = p)) as [<- | ne].
    - rewrite lookup_insert_eq. simpl. rewrite lookup_insert_eq. eauto.
    - rewrite lookup_insert_ne by exact ne.
      destruct (elements w !! p) as [pe |]; [| discriminate]. simpl in *.
      destruct (decide (_data e = _data pe)) as [<- | ned].
      + rewrite lookup_insert_eq. eauto.
      + rewrite lookup_insert_ne by exact ned. eauto. }
  destruct (recountAttachToPreviousInBlocks_effect w1 this (set_flags e fl)
              previous He1 (ex_intro _ _ Hi1) Hprevious1 Hp1)
    as (w' & Hrecount & Hitems & Hblocks & Hflags).
  assert (Hframe : only_flags_changed w w').
  { apply (only_flags_trans w w1 w').
    - apply (flags_setDisplayDate this d w tt w1 Hrun).
    - apply (flags_recountAttachToPreviousInBlocks this w1 tt w' Hrecount). }
  destruct (only_flags_lookup w w' this e Hframe He) as [fl' He'].
  assert (Hprevflag : forall b, isAttachedToPrevious this w' = Done b w' ->
                                hasFlag fl' AttachedToPrevious = b).
  { intros b. exec. intros [= <-]. reflexivity. }
  exists w', c.
  destruct previous as [p |].
  - destruct Hflags as (b & Hcompute & Hnext & Hprev).
    exists b, (set_flags e fl').
    split; [unfold previousInBlocksChanged, recountDisplayDateInBlocks; exec;
            rewrite Hd; exec; rewrite Hrun; exact Hrecount |].
    split; [rewrite Hc; exact Hd |]. split; [exact Hitems |].
    split; [exact Hframe |]. split; [exact He' |].
    split; [apply Hprevflag, Hprev |].
    destruct (Hp1 p eq_refl) as [prev1 Hat1]. unfold item_at in Hat1.
    destruct (elements w1 !! p) as [pe1 |] eqn:Hpe1; [| discriminate].
    simpl in Hat1.
    destruct (only_flags_lookup w1 w' p pe1
                (flags_recountAttachToPreviousInBlocks this w1 tt w' Hrecount)
                Hpe1) as [flp Hpe'].
    destruct (only_flags_lookup w1 w' this (set_flags e fl)
                (flags_recountAttachToPreviousInBlocks this w1 tt w' Hrecount)
                He1) as [fl'' He''].
    split.
    + rewrite (computeIsAttachToPrevious_run w1 this p (set_flags e fl) pe1
                 (set_HistoryMessageDate i c) prev1 He1 Hi1 Hpe1 Hat1)
        in Hcompute.
      rewrite (computeIsAttachToPrevious_run w' this p _ (set_flags pe1 flp)
                 (set_HistoryMessageDate i c) prev1 He'' )
        by (simpl; rewrite ?Hitems; assumption).
      injection Hcompute as <-. reflexivity.
    + exists (set_flags pe1 flp). split; [exact Hpe' |].
      revert Hnext. exec. intros [= <-]. reflexivity.
  - exists false, (set_flags e fl').
    split; [unfold previousInBlocksChanged, recountDisplayDateInBlocks; exec;
            rewrite Hd; exec; rewrite Hrun; exact Hrecount |].
    split; [rewrite Hc; exact Hd |]. split; [exact Hitems |].
    split; [exact Hframe |]. split; [exact He' |].
    split; [apply Hprevflag, Hflags | reflexivity].
Qed.

(** X12.  [previousInBlocksChanged()] settles at once: called again
    while nothing else has changed, it leaves the world exactly as it
    is, with no further request. *)
Theorem previousInBlocksChanged_settles w this e (i : HistoryItem) previous :
  elements w !! this = Some e ->
  items w !! _data e = Some i ->
  previousInBlocks this w = Done previous w ->
  (forall p, previous = Some p -> is_Some (item_at w p)) ->
  exists w',
    previousInBlocksChanged this w = Done tt w'
    /\ previousInBlocksChanged this w' = Done tt w'.
Proof.
  intros He Hi Hprevious Hp.
  destruct (previousInBlocksChanged_effect w this e i previous He Hi Hprevious Hp)
    as (w' & c & b & e' & Hrun & Hd & Hitems & Hframe & He' & Hb & Hprev).
  exists w'. split; [exact Hrun |].
  destruct (only_flags_lookup w w' this e Hframe He) as [fl' He2].
  rewrite He' in He2. injection He2 as ->.
  assert (Hi' : items w' !! _data (set_flags e fl')
                = Some (set_HistoryMessageDate i c))
    by (rewrite Hitems; apply lookup_insert_eq).
  assert (Hprevious' : previousInBlocks this w' = Done previous w')
    by (apply (previousInBlocks_position w w' this e (set_flags e fl'));
        auto; apply Hframe).
  assert (Hat : forall p prev, item_at w p = Some prev ->
                  exists c', item_at w' p
                             = Some (set_HistoryMessageDate prev c')).
  { intros p prev. unfold item_at.
    destruct (elements w !! p) as [pe |] eqn:Hpe; [| discriminate].
    destruct (only_flags_lookup w w' p pe Hframe Hpe) as [flp ->].
    simpl. rewrite Hitems. intros Hprevitem.
    destruct (decide (_data e = _data pe)) as [E | ne].
    - rewrite <- E, lookup_insert_eq. rewrite <- E, Hi in Hprevitem.
      injection Hprevitem as <-. eauto.
    - rewrite lookup_insert_ne by exact ne. rewrite Hprevitem.
      exists (Get_HistoryMessageDate prev).
      rewrite set_HistoryMessageDate_same. reflexivity. }
  assert (Hp' : forall p, previous = Some p -> is_Some (item_at w' p)).
  { intros p Hprevious_p. destruct (Hp p Hprevious_p) as [prev Hprevitem].
    destruct (Hat p prev Hprevitem) as [c' ->]. eauto. }
  assert (Hd' : displayDate_in_blocks this w'
                = Done (bool_decide (is_Some c)) w').
  { rewrite (displayDate_in_blocks_value w' this _ _ previous He' Hi' Hprevious' Hp').
    rewrite (displayDate_in_blocks_value w this e i previous He Hi Hprevious Hp)
      in Hd.
    injection Hd as <-. f_equal. simpl. f_equal.
    destruct previous as [p |]; [| reflexivity].
    destruct (Hp p eq_refl) as [prev Hprevitem]. rewrite Hprevitem.
    destruct (Hat p prev Hprevitem) as [c' ->]. reflexivity. }
  unfold previousInBlocksChanged, recountDisplayDateInBlocks. exec.
  rewrite Hd'. exec.
  destruct (setDisplayDate_effect w' this (set_flags e fl')
              (set_HistoryMessageDate i c) (bool_decide (is_Some c)) He' Hi')
    as (w2 & i2 & Hset & _ & _ & _ & _ & Hsame & _).
  rewrite Hset, (Hsame eq_refl).
  unfold recountAttachToPreviousInBlocks. exec. rewrite Hprevious'.
  destruct previous as [p |]; exec.
  - destruct Hprev as (Hcompute & pe' & Hpe' & Hnext).
    rewrite Hcompute. exec. rewrite <- Hnext.
    rewrite (setAttachToNext_same w' p pe' Hpe'). exec.
    rewrite Hnext, <- Hb. apply (setAttachToPrevious_same w' this _ He').
  - rewrite Hprev in Hb. rewrite <- Hb.
    apply (setAttachToPrevious_same w' this _ He').
Qed.

(** X13.  In blocks that are in order, the element that records a
    block finds its neighbours safely: [indexInBlock()],
    [previousInBlocks()] and [nextInBlocks()] return, without a failed
    assertion and without a read outside a vector, and change
    nothing. *)
Theorem neighbours_are_read_safely w this e b :
  blocks_in_order nextBlock w ->
  elements w !! this = Some e ->
  _block e = Some b ->
  indexInBlock this w = Done (_indexInBlock e) w
  /\ (exists previous, previousInBlocks this w = Done previous w)
  /\ (exists next, nextInBlocks nextBlock this w = Done next w).
Proof.
  intros [Hstands Hrecorded Hnonempty Hnp Hpn] He Hb.
  destruct (Hstands this e b He Hb) as (H0 & blk & Hblk & Hat).
  assert (Hlen : _indexInBlock e < Z.of_nat (length (messages blk)))
    by (apply lookup_lt_Some in Hat; lia).
  split; [| split].
  - unfold indexInBlock, HistoryView.index. exec. rewrite Hb. exec.
    destruct (0 <=? _indexInBlock e) eqn:E0; [| lia]. exec.
    rewrite bool_decide_true by reflexivity. reflexivity.
  - unfold previousInBlocks, HistoryView.index, back. exec. rewrite Hb. exec.
    destruct (0 <=? _indexInBlock e) eqn:E0; [| lia].
    destruct (0 <? _indexInBlock e) eqn:E1; exec.
    + destruct (0 <=? _indexInBlock e - 1) eqn:E2; [| lia].
      destruct (messages blk !! Z.to_nat (_indexInBlock e - 1)) as [p |] eqn:Hp;
        exec; [eauto |].
      apply lookup_ge_None in Hp. lia.
    + destruct (previousBlock blk) as [P |] eqn:HP; exec; [| eauto].
      destruct (Hpn b blk P Hblk HP) as [[pblk Hpblk] _]. exec.
      pose proof (Hnonempty P pblk Hpblk) as Hne.
      rewrite bool_decide_false by exact Hne. exec.
      destruct (last (messages pblk)) as [p |] eqn:Hp; exec; [eauto |].
      apply last_None in Hp. contradiction.
  - unfold nextInBlocks, HistoryView.index, front. exec. rewrite Hb. exec.
    destruct (0 <=? _indexInBlock e) eqn:E0; [| lia]. exec.
    destruct (_indexInBlock e + 1 <? Z.of_nat (length (messages blk))) eqn:E1;
      exec.
    + destruct (0 <=? _indexInBlock e + 1) eqn:E2; [| lia].
      destruct (messages blk !! Z.to_nat (_indexInBlock e + 1)) as [p |] eqn:Hp;
        exec; [eauto |].
      apply lookup_ge_None in Hp. lia.
    + destruct (nextBlock b) as [N |] eqn:HN; exec; [| eauto].
      destruct (Hnp b N (ex_intro _ blk Hblk) HN) as (nblk & Hnblk & _). exec.
      pose proof (Hnonempty N nblk Hnblk) as Hne.
      rewrite bool_decide_false by exact Hne. exec.
      destruct (messages nblk) as [| p rest]; [contradiction | eauto].
Qed.

(** ** Without a group *)

(** X14.  On an element without a [Group], [makeGroupLeader] stops at
    its assertion, [makeGroupMember] at its assertion too (or already
    at its [Expects] when the leader is the element itself),
    [getFullGroup()] returns null and [groupIdValidityChanged()]
    returns [false]; none of them changes anything. *)
Theorem grouping_needs_a_group w this leader others e :
  elements w !! this = Some e ->
  Get_Group e = None ->
  makeGroupLeader this others w = Abort AssertFailed
  /\ makeGroupMember this leader w
     = Abort (if decide (leader = this) then ExpectsFailed else AssertFailed)
  /\ getFullGroup this w = Done None w
  /\ groupIdValidityChanged this w = Done false w.
Proof.
  intros He Hg. split; [| split; [| split]].
  - unfold makeGroupLeader, makeGroupLeader_body. exec. rewrite Hg. reflexivity.
  - unfold makeGroupMember, makeGroupMember_body. exec.
    destruct (decide (leader = this)) as [-> | ne].
    + rewrite bool_decide_false by (intros ne; contradiction). reflexivity.
    + rewrite bool_decide_true by exact ne. exec. rewrite Hg. reflexivity.
  - unfold getFullGroup. exec. rewrite Hg. reflexivity.
  - unfold groupIdValidityChanged. exec. rewrite Hg. reflexivity.
Qed.

(** ** Refreshing the data id *)

Variable refreshParentId : HistoryMedia -> ptr -> HistoryMedia.

(** X15.  [refreshDataId()] does nothing on an element without media;
    on an element that leads itself or has no group it refreshes the
    element's own media and returns; on a member of a group whose
    leader leads itself it refreshes the member's media, then the
    leader's, and returns.  Nothing else changes. *)
Theorem refreshDataId_reaches_leader w this e depth :
  elements w !! this = Some e ->
  (_media e = None ->
   refreshDataId refreshParentId (S depth) this w = Done (Some tt) w)
  /\ (forall m,
         _media e = Some m ->
         (forall g : Group.t, Get_Group e = Some g -> Group.leader g = Some this) ->
         refreshDataId refreshParentId (S depth) this w
         = Done (Some tt)
             {| elements :=
                  <[this := set_media e (Some (refreshParentId m this))]> (elements w);
                items := items w; blocks := blocks w; requests := requests w |})
  /\ (forall m (g : Group.t) leader le ml (gl : Group.t),
         _media e = Some m -> Get_Group e = Some g ->
         Group.leader g = Some leader -> leader <> this ->
         elements w !! leader = Some le -> _media le = Some ml ->
         Get_Group le = Some gl -> Group.leader gl = Some leader ->
         refreshDataId refreshParentId (S (S depth)) this w
         = Done (Some tt)
             {| elements :=
                  <[leader := set_media le (Some (refreshParentId ml leader))]>
                    (<[this := set_media e (Some (refreshParentId m this))]>
                       (elements w));
                items := items w; blocks := blocks w; requests := requests w |}).
Proof.
  intros He. split; [| split].
  - intros Hm. simpl. exec. rewrite Hm. reflexivity.
  - intros m Hm Hown. simpl. exec. rewrite Hm. exec.
    destruct (Get_Group e) as [g |] eqn:Hg; [| reflexivity].
    rewrite (Hown g eq_refl).
    destruct (decide (Some this <> Some this)) as [ne | _];
      [contradiction | reflexivity].
  - intros m g leader le ml gl Hm Hg Hl Hne Hle Hml Hgl Hll.
    cbn [refreshDataId]. exec. rewrite Hm. exec. rewrite Hl.
    destruct (decide (Some leader <> Some this)) as [_ | same];
      [| exfalso; apply same; congruence].
    exec. rewrite lookup_insert_ne by congruence. rewrite Hle. exec.
    rewrite Hml. exec. rewrite lookup_insert_ne by congruence. rewrite Hle.
    exec. rewrite ?Hgl. exec. rewrite Hll.
    destruct (decide (Some leader <> Some leader)) as [ne | _];
      [contradiction | reflexivity].
Qed.

Lemma refreshDataId_cycle depth :
  forall w a b ea eb (ga gb : Group.t),
    a <> b ->
    elements w !! a = Some ea -> is_Some (_media ea) ->
    Get_Group ea = Some ga -> Group.leader ga = Some b ->
    elements w !! b = Some eb -> is_Some (_media eb) ->
    Get_Group eb = Some gb -> Group.leader gb = Some a ->
    exists w', refreshDataId refreshParentId depth a w = Done None w'.
Proof.
  induction depth as [| depth IH];
    intros w a b ea eb ga gb Hne Hea [ma Hma] Hga Hla Heb Hmb Hgb Hlb.
  - eexists. reflexivity.
  - cbn [refreshDataId]. exec. rewrite Hma. exec. rewrite Hla.
    destruct (decide (Some b <> Some a)) as [_ | same];
      [| exfalso; apply same; congruence].
    apply (IH _ b a eb (set_media ea (Some (refreshParentId ma a))) gb ga);
      simpl; try assumption; try congruence.
    + rewrite lookup_insert_ne by exact Hne. exact Heb.
    + apply lookup_insert_eq.
    + eauto.
Qed.

(** X16.  When two elements with media have been made members of each
    other, [refreshDataId()] on either of them does not return: the
    two keep calling each other, however deep the calls may nest. *)
Theorem refreshDataId_between_two_members w a b ea eb (ga gb : Group.t) w1 w2 :
  a <> b ->
  elements w !! a = Some ea -> is_Some (_media ea) -> Get_Group ea = Some ga ->
  elements w !! b = Some eb -> is_Some (_media eb) -> Get_Group eb = Some gb ->
  makeGroupMember a b w = Done tt w1 ->
  makeGroupMember b a w1 = Done tt w2 ->
  forall depth,
    (exists w', refreshDataId refreshParentId depth a w2 = Done None w')
    /\ (exists w', refreshDataId refreshParentId depth b w2 = Done None w').
Proof.
  intros Hne Hea Hma Hga Heb Hmb Hgb Hrun1 Hrun2.
  assert (member : forall w this leader e (g : Group.t) w',
    elements w !! this = Some e -> is_Some (_media e) -> Get_Group e = Some g ->
    makeGroupMember this leader w = Done tt w' ->
    (exists e' (g' : Group.t),
        elements w' !! this = Some e' /\ is_Some (_media e')
        /\ Get_Group e' = Some g' /\ Group.leader g' = Some leader)
    /\ forall q, q <> this -> elements w' !! q = elements w !! q).
  { clear. intros w this leader e g w' He [m Hm] Hg.
    unfold makeGroupMember, makeGroupMember_body. exec.
    destruct (bool_decide (leader <> this)); exec; [| discriminate].
    destruct (decide (Group.leader g = Some this)) as [own | led]; exec.
    - rewrite Hm. destruct (takeLastFromGroup m) as [[single |] m']; exec;
        rewrite hasFlag_addFlag; exec; intros [= <-]; simpl;
        (split; [eexists _, _; rewrite lookup_insert_eq;
                 split; [reflexivity |]; simpl; eauto
                | intros q Hq; rewrite !lookup_insert_ne by congruence;
                  reflexivity]).
    - destruct (decide (Group.leader g <> Some leader)) as [other | same]; exec.
      + destruct (hasFlag (_flags e) HiddenByGroup); exec; [| discriminate].
        destruct (bool_decide (Group.others g = [])); exec; [| discriminate].
        intros [= <-]. simpl.
        split; [eexists _, _; rewrite lookup_insert_eq;
                split; [reflexivity |]; simpl; rewrite Hm; eauto
               | intros q Hq; rewrite lookup_insert_ne by congruence;
                 reflexivity].
      + destruct (hasFlag (_flags e) HiddenByGroup); exec; [| discriminate].
        destruct (bool_decide (Group.others g = [])); exec; [| discriminate].
        intros [= <-].
        split; [| reflexivity].
        exists e, g. rewrite Hm.
        destruct (decide (Group.leader g = Some leader)) as [E | ne];
          [eauto | contradiction]. }
  destruct (member w a b ea ga w1 Hea Hma Hga Hrun1)
    as [(ea1 & ga1 & Hea1 & Hma1 & Hga1 & Hla1) Hother1].
  assert (Heb1 : elements w1 !! b = Some eb)
    by (rewrite Hother1 by congruence; exact Heb).
  destruct (member w1 b a eb gb w2 Heb1 Hmb Hgb Hrun2)
    as [(eb2 & gb2 & Heb2 & Hmb2 & Hgb2 & Hlb2) Hother2].
  assert (Hea2 : elements w2 !! a = Some ea1)
    by (rewrite Hother2 by exact Hne; exact Hea1).
  intros depth. split.
  - apply (refreshDataId_cycle depth w2 a b ea1 eb2 ga1 gb2); assumption.
  - apply (refreshDataId_cycle depth w2 b a eb2 ea1 gb2 ga1);
      try assumption. congruence.
Qed.
End ElementFacts.

(** * The model at work on the sample chat *)

Section SampleRuns.
Import HistoryView HistoryView.Sample.

(** The sample chat is what the constructor, a first layout and the
    attachment to the block make of the three messages. *)
Example chat_built : run_all chat_calls start = Done tt chat.
Proof. reflexivity. Qed.

Example chat_reachable : reachable chat.
Proof.
  apply (reachable_run_all chat_calls start chat).
  - apply reachable_start. reflexivity.
  - exact chat_built.
Qed.

Example previousInBlocks_chat :
  previousInBlocks 1 chat = Done None chat
  /\ previousInBlocks 2 chat = Done (Some 1%positive) chat
  /\ previousInBlocks 3 chat = Done None chat.
Proof. repeat split. Qed.

(** The second message follows the first one of the same sender by 500
    seconds: it attaches. *)
Lemma computeIsAttachToPrevious_chat :
  elements chat !! 2%positive = Some second
  /\ items chat !! 12%positive = Some (message 1500 0 None)
  /\ elements chat !! 1%positive = Some first
  /\ items chat !! 11%positive = Some (message 1000 0 None)
  /\ computeIsAttachToPrevious 2 1 chat = Done true chat.
Proof.
  repeat (split; [reflexivity |]).
  destruct (computeIsAttachToPrevious_true_iff chat 2 1 second first
              (message 1500 0 None) (message 1000 0 None)
              eq_refl eq_refl eq_refl eq_refl) as (b & Hrun & Hiff).
  rewrite Hrun. f_equal. apply Hiff.
  repeat (split; [reflexivity |]). reflexivity.
Defined.

(** Fifteen minutes are too long. *)
Example computeIsAttachToPrevious_900 :
  possible (message 1900 0 None) (message 1000 0 None) = false
  /\ possible (message 1899 0 None) (message 1000 0 None) = true
  /\ possible (message 1000 0 None) (message 1899 0 None) = true.
Proof. repeat split. Qed.

Lemma Element_new_chat :
  items chat !! 13%positive = Some (message 90000 5 (Some 1%positive))
  /\ exists w' e,
       Element_new 4 13 History chat = Done tt w'
       /\ elements w' !! 4%positive = Some e
       /\ Get_Group e = Some (Group.mk 5 (Some 4%positive) []).
Proof.
  split; [reflexivity |].
  destruct (Element_new_group chat 4 13 History
              (message 90000 5 (Some 1%positive)) eq_refl)
    as (w' & e & Hrun & He & Hd & Hhas & Hg).
  exists w', e. split; [exact Hrun |]. split; [exact He |].
  destruct (proj2 Hhas) as [g Hgroup]; [discriminate |].
  destruct (Hg g Hgroup) as (Hl & Hid & Ho).
  rewrite Hgroup. destruct g as [id l o]. simpl in *. subst. reflexivity.
Defined.

Lemma makeGroupMember_chat :
  1%positive <> 3%positive
  /\ reachable chat
  /\ elements chat !! 3%positive = Some photo
  /\ Get_Group photo = Some (Group.mk 5 (Some 3%positive) [])
  /\ exists w' e' (g' : Group.t),
       makeGroupMember 3 1 chat = Done tt w'
       /\ elements w' !! 3%positive = Some e'
       /\ Get_Group e' = Some g'
       /\ isHiddenByGroup 3 w' = Done true w'
       /\ Group.others g' = []
       /\ Group.leader g' = Some 1%positive.
Proof.
  split; [discriminate |]. split; [exact chat_reachable |].
  split; [reflexivity |]. split; [reflexivity |].
  destruct (makeGroupMember_ensures chat 3 1 photo
              (Group.mk 5 (Some 3%positive) []))
    as (post & _ & returns); [discriminate | reflexivity | reflexivity |].
  destruct (returns eq_refl chat_reachable) as [w' Hrun].
  destruct (post w' Hrun) as (e' & g' & H).
  exists w', e', g'. split; [exact Hrun | exact H].
Defined.

Lemma makeGroupLeader_chat :
  reachable chat
  /\ elements chat !! 3%positive = Some photo
  /\ Get_Group photo = Some (Group.mk 5 (Some 3%positive) [])
  /\ exists w' e' (g' : Group.t),
       makeGroupLeader 3 [1%positive; 2%positive] chat = Done tt w'
       /\ elements w' !! 3%positive = Some e'
       /\ Get_Group e' = Some g'
       /\ Group.leader g' = Some 3%positive
       /\ isHiddenByGroup 3 w' = Done false w'
       /\ Group.others g' = [1%positive; 2%positive]
       /\ _media e' = Some (Grouped 3 [1%positive; 2%positive]).
Proof.
  split; [exact chat_reachable |]. split; [reflexivity |]. split; [reflexivity |].
  destruct (makeGroupLeader_ensures chat 3 [1%positive; 2%positive] photo
              (Group.mk 5 (Some 3%positive) []))
    as (post & _ & returns); [reflexivity | reflexivity |].
  destruct (returns eq_refl chat_reachable) as [w' Hrun].
  destruct (post w' Hrun) as (e' & g' & He' & Hg' & Hl & Hh & Ho & Hm).
  exists w', e', g'. repeat (split; [assumption |]).
  apply Hm; [reflexivity | discriminate].
Defined.

(** From an element that another one leads without hiding it, the
    [Ensures] of [makeGroupMember] stops the call, while
    [makeGroupLeader] makes the element its own leader again. *)
Example makeGroupMember_stray :
  makeGroupMember 3 1 stray = Abort EnsuresFailed
  /\ exists w', makeGroupLeader 3 [] stray = Done tt w'
                /\ elements w' !! 3%positive = Some photo.
Proof. split; [reflexivity | eexists; split; reflexivity]. Qed.

Lemma recountDisplayDateInBlocks_chat :
  (elements chat !! 1%positive = Some first
   /\ items chat !! 11%positive = Some (message 1000 0 None)
   /\ previousInBlocks 1 chat = Done None chat
   /\ exists w' i',
        recountDisplayDateInBlocks 1 chat = Done tt w'
        /\ items w' !! 11%positive = Some i'
        /\ Has_HistoryMessageDate i' = true
        /\ pendingResize 1 w' = Done true w')
  /\ (elements chat !! 2%positive = Some second
      /\ items chat !! 12%positive = Some (message 1500 0 None)
      /\ previousInBlocks 2 chat = Done (Some 1%positive) chat
      /\ item_at chat 1 = Some (message 1000 0 None)
      /\ recountDisplayDateInBlocks 2 chat = Done tt chat)
  /\ (items next_day !! 12%positive = Some (message 90000 0 None)
      /\ previousInBlocks 2 next_day = Done (Some 1%positive) next_day
      /\ item_at next_day 1 = Some (message 1000 0 None)
      /\ exists w' i',
           recountDisplayDateInBlocks 2 next_day = Done tt w'
           /\ items w' !! 12%positive = Some i'
           /\ Has_HistoryMessageDate i' = true
           /\ pendingResize 2 w' = Done true w')
  /\ (items after_nothing !! 12%positive = Some (message 1500 0 None)
      /\ previousInBlocks 2 after_nothing = Done (Some 1%positive) after_nothing
      /\ item_at after_nothing 1 = Some (nothing 1000)
      /\ exists w' i',
           recountDisplayDateInBlocks 2 after_nothing = Done tt w'
           /\ items w' !! 12%positive = Some i'
           /\ Has_HistoryMessageDate i' = true
           /\ pendingResize 2 w' = Done true w')
  /\ (elements two_blocks !! 2%positive
      = Some (view 12 None (Some 31%positive) 0 None)
      /\ previousInBlocks 2 two_blocks = Done (Some 1%positive) two_blocks
      /\ item_at two_blocks 1 = Some (message 1000 0 None)
      /\ recountDisplayDateInBlocks 2 two_blocks = Done tt two_blocks).
Proof.
  split; [| split; [| split; [| split]]].
  - repeat (split; [reflexivity |]).
    destruct (recountDisplayDateInBlocks_date_separator chat 1
                first (message 1000 0 None) None eq_refl eq_refl)
      as [(w' & i' & Hrun & Hi' & _ & Hiff & Hsame & Hchanged) _].
    { intros _. split; [reflexivity | intros p [=]]. }
    assert (Hhas : Has_HistoryMessageDate i' = true)
      by (apply Hiff; split; [reflexivity | left; reflexivity]).
    exists w', i'. repeat (split; [assumption |]).
    apply Hchanged. rewrite Hhas. discriminate.
  - repeat (split; [reflexivity |]).
    destruct (recountDisplayDateInBlocks_date_separator chat 2
                second (message 1500 0 None) (Some 1%positive) eq_refl eq_refl)
      as [(w' & i' & Hrun & Hi' & _ & Hiff & Hsame & Hchanged) _].
    { intros _. split; [reflexivity | intros p [= <-]; eexists; reflexivity]. }
    assert (Hhas : Has_HistoryMessageDate i' = false).
    { destruct (Has_HistoryMessageDate i'); [| reflexivity].
      destruct Hiff as [Hwhy _].
      destruct (Hwhy eq_refl) as [_ [[=] | (p & prev & [= <-] & [= <-] & Hprev)]].
      destruct Hprev as [[=] | Hday]. destruct Hday. reflexivity. }
    rewrite <- (Hsame Hhas) at 2. exact Hrun.
  - repeat (split; [reflexivity |]).
    destruct (recountDisplayDateInBlocks_date_separator next_day 2
                second (message 90000 0 None) (Some 1%positive) eq_refl eq_refl)
      as [(w' & i' & Hrun & Hi' & _ & Hiff & Hsame & Hchanged) _].
    { intros _. split; [reflexivity | intros p [= <-]; eexists; reflexivity]. }
    assert (Hhas : Has_HistoryMessageDate i' = true).
    { apply Hiff. split; [reflexivity | right].
      exists 1%positive, (message 1000 0 None).
      split; [reflexivity | split; [reflexivity | right; discriminate]]. }
    exists w', i'. repeat (split; [assumption |]).
    apply Hchanged. rewrite Hhas. discriminate.
  - repeat (split; [reflexivity |]).
    destruct (recountDisplayDateInBlocks_date_separator after_nothing 2
                second (message 1500 0 None) (Some 1%positive) eq_refl eq_refl)
      as [(w' & i' & Hrun & Hi' & _ & Hiff & Hsame & Hchanged) _].
    { intros _. split; [reflexivity | intros p [= <-]; eexists; reflexivity]. }
    assert (Hhas : Has_HistoryMessageDate i' = true).
    { apply Hiff. split; [reflexivity | right].
      exists 1%positive, (nothing 1000).
      split; [reflexivity | split; [reflexivity | left; reflexivity]]. }
    exists w', i'. repeat (split; [assumption |]).
    apply Hchanged. rewrite Hhas. discriminate.
  - repeat (split; [reflexivity |]).
    destruct (recountDisplayDateInBlocks_date_separator two_blocks 2
                (view 12 None (Some 31%positive) 0 None) (message 1500 0 None)
                (Some 1%positive) eq_refl eq_refl)
      as [(w' & i' & Hrun & Hi' & _ & Hiff & Hsame & Hchanged) _].
    { intros _. split; [reflexivity | intros p [= <-]; eexists; reflexivity]. }
    assert (Hhas : Has_HistoryMessageDate i' = false).
    { destruct (Has_HistoryMessageDate i'); [| reflexivity].
      destruct Hiff as [Hwhy _].
      destruct (Hwhy eq_refl) as [_ [[=] | (p & prev & [= <-] & [= <-] & Hprev)]].
      destruct Hprev as [[=] | Hday]. destruct Hday. reflexivity. }
    rewrite <- (Hsame Hhas) at 2. exact Hrun.
Defined.

Lemma recountAttachToPreviousInBlocks_chat :
  elements chat !! 2%positive = Some second
  /\ items chat !! 12%positive = Some (message 1500 0 None)
  /\ previousInBlocks 2 chat = Done (Some 1%positive) chat
  /\ item_at chat 1 = Some (message 1000 0 None)
  /\ exists w',
       recountAttachToPreviousInBlocks 2 chat = Done tt w'
       /\ isAttachedToNext 1 w' = Done true w'
       /\ isAttachedToPrevious 2 w' = Done true w'.
Proof.
  repeat (split; [reflexivity |]).
  destruct (recountAttachToPreviousInBlocks_flags chat 2 second (Some 1%positive)
              eq_refl (ex_intro _ (message 1500 0 None) eq_refl) eq_refl)
    as (w' & Hrun & b & Hb & Hnext & Hprev).
  { intros p [= <-]. exists (message 1000 0 None). reflexivity. }
  assert (b = true) as ->.
  { assert (H : computeIsAttachToPrevious 2 1 chat = Done true chat)
      by reflexivity.
    rewrite H in Hb. injection Hb as <-. reflexivity. }
  exists w'. auto.
Defined.

Lemma setAttachTo_chat :
  elements chat !! 1%positive = Some first
  /\ is_Some (items chat !! 11%positive)
  /\ (exists w', setAttachToNext 1 true chat = Done tt w'
                 /\ isAttachedToNext 1 w' = Done true w')
  /\ (exists w', setAttachToPrevious 1 false chat = Done tt w' /\ w' = chat).
Proof.
  split; [reflexivity |]. split; [eexists; reflexivity |].
  destruct (setAttachTo_flag_and_frame chat 1 first true eq_refl)
    as [(w1 & e1 & Hrun1 & He1 & _ & Hflag1 & _) _].
  destruct (setAttachTo_flag_and_frame chat 1 first false eq_refl)
    as [_ Hprevious].
  destruct Hprevious as (w2 & e2 & Hrun2 & _ & _ & _ & Hsame2 & _).
  { intros _. eexists. reflexivity. }
  split.
  - exists w1. split; [exact Hrun1 |].
    unfold isAttachedToNext, deref_element, load, mbind, mret, Run_bind, Run_ret.
    rewrite He1, Hflag1. reflexivity.
  - exists w2. split; [exact Hrun2 | apply Hsame2; reflexivity].
Defined.

(** [setAttachToPrevious(true)] on the first element of the chat, whose
    [_flags] are [0] after its layout, sets [AttachedToPrevious] and
    also [NeedsResize]: bit 0 of [_flags] changes although it lies
    outside [AttachedToPrevious]. *)
Lemma setAttachToPrevious_changes_NeedsResize :
  flags_at chat 1 = Some 0
  /\ exists w' e',
       setAttachToPrevious 1 true chat = Done tt w'
       /\ elements w' !! 1%positive = Some e'
       /\ _flags e' = 3
       /\ ~ outside_unchanged AttachedToPrevious 0 (_flags e').
Proof.
  split; [reflexivity |].
  eexists _, _. split; [reflexivity |]. split; [reflexivity |].
  split; [reflexivity |].
  intros H. specialize (H 0 eq_refl). discriminate H.
Qed.

Example chat_in_order : blocks_in_order (fun _ => None) chat.
Proof.
  split.
  - intros p e b He Hb. unfold chat in He. simpl in He.
    repeat (rewrite lookup_insert in He;
            destruct (decide _) as [<- | ?];
            [injection He as <-; try discriminate Hb; injection Hb as <-;
             (split; [simpl; lia | eexists; split; reflexivity]) |]).
    rewrite lookup_empty in He. discriminate.
  - intros p b i (H0 & blk & Hblk & Hat). unfold chat in Hblk. simpl in Hblk.
    rewrite lookup_insert in Hblk. destruct (decide _) as [<- | ?];
      [| rewrite lookup_empty in Hblk; discriminate].
    injection Hblk as <-. simpl in Hat.
    destruct (Z.to_nat i) as [| [| n]] eqn:Hi; simpl in Hat;
      [injection Hat as <-; exists first
      | injection Hat as <-; exists second
      | discriminate];
      (split; [reflexivity |]; split; [reflexivity |]; simpl; lia).
  - intros b blk Hblk. unfold chat in Hblk. simpl in Hblk.
    rewrite lookup_insert in Hblk. destruct (decide _);
      [| rewrite lookup_empty in Hblk; discriminate].
    injection Hblk as <-. discriminate.
  - intros b n _ [=].
  - intros n nblk b Hblk. unfold chat in Hblk. simpl in Hblk.
    rewrite lookup_insert in Hblk. destruct (decide _);
      [| rewrite lookup_empty in Hblk; discriminate].
    injection Hblk as <-. discriminate.
Qed.

Lemma resize_chat :
  elements chat !! 1%positive = Some first
  /\ is_Some (items chat !! 11%positive)
  /\ exists w1 w2,
       setPendingResize 1 chat = Done tt w1
       /\ countCurrentSize 1 100 w1 = Done tt w2
       /\ pendingResize 1 w2 = Done false w2.
Proof.
  split; [reflexivity |]. split; [eexists; reflexivity |].
  destruct (resize_is_counted_once chat 1 first 100 eq_refl)
    as (w1 & w2 & w3 & e3 & Hrun1 & _ & Hrun2 & Hpending & _).
  { intros _. eexists. reflexivity. }
  exists w1, w2. auto.
Defined.

Lemma groupIdValidityChanged_bare :
  elements bare !! 3%positive
  = Some (view 13 None None (-1) (Some (Group.mk 5 (Some 3%positive) [])))
  /\ exists w',
       groupIdValidityChanged 3 bare = Done true w'
       /\ groupIdValidityChanged 3 w' = Done false w'.
Proof.
  split; [reflexivity |].
  destruct (groupIdValidityChanged_drops_once bare 3
              (view 13 None None (-1) (Some (Group.mk 5 (Some 3%positive) [])))
              eq_refl)
    as (changed & w' & Hrun & Hiff & _ & _ & Hagain & _).
  assert (changed = true) as ->
    by (apply Hiff; split; [eexists; reflexivity | intros m [=]]).
  exists w'. auto.
Defined.

Lemma getFullGroup_chat :
  1%positive <> 3%positive
  /\ elements chat !! 3%positive = Some photo
  /\ Get_Group photo = Some (Group.mk 5 (Some 3%positive) [])
  /\ elements chat !! 1%positive = Some first
  /\ exists w',
       makeGroupMember 3 1 chat = Done tt w'
       /\ getFullGroup 3 w' = Done None w'.
Proof.
  split; [discriminate |]. repeat (split; [reflexivity |]).
  eexists. split; [reflexivity |].
  apply (proj1 (getFullGroup_after_grouping chat 3 1 [] photo
                  (Group.mk 5 (Some 3%positive) [])
                  ltac:(discriminate) eq_refl eq_refl) _ first);
    reflexivity.
Defined.

Lemma grouping_calls_chat :
  1%positive <> 3%positive
  /\ elements chat !! 3%positive = Some photo
  /\ Get_Group photo = Some (Group.mk 5 (Some 3%positive) [])
  /\ exists w1 w2,
       makeGroupMember 3 1 chat = Done tt w1
       /\ makeGroupLeader 3 [2%positive] w1 = Done tt w2.
Proof.
  split; [discriminate |]. repeat (split; [reflexivity |]).
  destruct (grouping_calls_alternate chat 3 1 photo
              (Group.mk 5 (Some 3%positive) [])
              ltac:(discriminate) eq_refl eq_refl) as [after_member _].
  assert (Hrun : exists w1, makeGroupMember 3 1 chat = Done tt w1)
    by (eexists; reflexivity).
  destruct Hrun as [w1 Hrun].
  destruct (after_member w1 [2%positive] Hrun) as [w2 Hleader].
  exists w1, w2. auto.
Defined.

Lemma setAttachTo_twice_chat :
  elements chat !! 1%positive = Some first
  /\ is_Some (items chat !! 11%positive)
  /\ exists w1, setAttachToPrevious 1 true chat = Done tt w1
                /\ setAttachToPrevious 1 true w1 = Done tt w1.
Proof.
  split; [reflexivity |]. split; [eexists; reflexivity |].
  destruct (setAttachTo_idempotent chat 1 first true eq_refl) as [_ H].
  { intros _. eexists. reflexivity. }
  exact H.
Defined.

Lemma setDisplayDate_chat :
  elements chat !! 1%positive = Some first
  /\ items chat !! 11%positive = Some (message 1000 0 None)
  /\ Has_HistoryMessageDate (message 1000 0 None) = false
  /\ exists w1 w2,
       setDisplayDate 1 true chat = Done tt w1
       /\ setDisplayDate 1 false w1 = Done tt w2
       /\ items w2 = items chat.
Proof.
  repeat (split; [reflexivity |]).
  destruct (setDisplayDate_round_trip chat 1 first (message 1000 0 None)
              eq_refl eq_refl eq_refl)
    as (w1 & i1 & w2 & Hrun1 & _ & _ & Hrun2 & Hitems & _).
  exists w1, w2. auto.
Defined.

Lemma attachToBlock_chat :
  elements chat !! 3%positive = Some photo
  /\ items chat !! 13%positive = Some (message 90000 5 (Some 1%positive))
  /\ exists w1,
       attachToBlock 3 30 2 chat = Done tt w1
       /\ block 3 w1 = Done (Some 30%positive) w1
       /\ attachToBlock 3 30 2 w1 = Abort ExpectsFailed.
Proof.
  repeat (split; [reflexivity |]).
  destruct (attachToBlock_once chat 3 photo (message 90000 5 (Some 1%positive))
              30 2 eq_refl eq_refl) as [returns after].
  destruct (proj2 returns) as [w1 Hrun]; [repeat split; simpl; lia |].
  destruct (after w1 Hrun) as (Hblock & _ & _ & _ & _ & Hagain).
  exists w1. auto.
Defined.

Lemma previousInBlocksChanged_chat :
  (elements chat !! 1%positive = Some first
   /\ items chat !! 11%positive = Some (message 1000 0 None)
   /\ previousInBlocks 1 chat = Done None chat
   /\ exists w' i',
        previousInBlocksChanged 1 chat = Done tt w'
        /\ items w' !! 11%positive = Some i'
        /\ (Has_HistoryMessageDate i' = true ->
            isAttachedToPrevious 1 w' = Done false w'))
  /\ (elements next_day !! 2%positive = Some second
      /\ items next_day !! 12%positive = Some (message 90000 0 None)
      /\ previousInBlocks 2 next_day = Done (Some 1%positive) next_day
      /\ item_at next_day 1 = Some (message 1000 0 None)
      /\ exists w' i',
           previousInBlocksChanged 2 next_day = Done tt w'
           /\ items w' !! 12%positive = Some i'
           /\ (Has_HistoryMessageDate i' = true ->
               isAttachedToPrevious 2 w' = Done false w'
               /\ isAttachedToNext 1 w' = Done false w')).
Proof.
  split.
  - repeat (split; [reflexivity |]).
    destruct (previousInBlocksChanged_separates chat 1 first (message 1000 0 None)
                None eq_refl eq_refl eq_refl)
      as (w' & i' & Hrun & Hi' & _ & Hseparate); [intros p [=] |].
    exists w', i'. split; [exact Hrun |]. split; [exact Hi' |].
    intros Hdate. apply Hseparate, Hdate.
  - repeat (split; [reflexivity |]).
    destruct (previousInBlocksChanged_separates next_day 2 second
                (message 90000 0 None) (Some 1%positive) eq_refl eq_refl eq_refl)
      as (w' & i' & Hrun & Hi' & _ & Hseparate);
      [intros p [= <-]; eexists; reflexivity |].
    exists w', i'. split; [exact Hrun |]. split; [exact Hi' |].
    intros Hdate. destruct (Hseparate Hdate) as [Hthis Hprevious].
    split; [exact Hthis | exact (Hprevious 1%positive eq_refl)].
Defined.

Lemma next_and_previous_chat :
  blocks_in_order (fun _ => None) chat
  /\ nextInBlocks (fun _ => None) 1 chat = Done (Some 2%positive) chat
  /\ previousInBlocks 2 chat = Done (Some 1%positive) chat.
Proof.
  split; [exact chat_in_order |]. split; [reflexivity |].
  apply (next_and_previous_mirror (fun _ => None) chat 1 2 chat_in_order).
  reflexivity.
Defined.

Lemma previousInBlocksChanged_twice_chat :
  elements chat !! 2%positive = Some second
  /\ items chat !! 12%positive = Some (message 1500 0 None)
  /\ previousInBlocks 2 chat = Done (Some 1%positive) chat
  /\ item_at chat 1 = Some (message 1000 0 None)
  /\ exists w',
       previousInBlocksChanged 2 chat = Done tt w'
       /\ previousInBlocksChanged 2 w' = Done tt w'.
Proof.
  repeat (split; [reflexivity |]).
  apply (previousInBlocksChanged_settles chat 2 second (message 1500 0 None)
           (Some 1%positive) eq_refl eq_refl eq_refl).
  intros p [= <-]. eexists. reflexivity.
Defined.

Lemma neighbours_chat :
  blocks_in_order (fun _ => None) chat
  /\ elements chat !! 2%positive = Some second
  /\ _block second = Some 30%positive
  /\ indexInBlock 2 chat = Done 1 chat
  /\ (exists previous, previousInBlocks 2 chat = Done previous chat)
  /\ (exists next, nextInBlocks (fun _ => None) 2 chat = Done next chat).
Proof.
  split; [exact chat_in_order |]. repeat (split; [reflexivity |]).
  apply (neighbours_are_read_safely (fun _ => None) chat 2 second 30
           chat_in_order eq_refl eq_refl).
Defined.

Lemma grouping_without_group_chat :
  elements chat !! 1%positive = Some first
  /\ Get_Group first = None
  /\ makeGroupLeader 1 [2%positive] chat = Abort AssertFailed
  /\ makeGroupMember 1 3 chat = Abort AssertFailed
  /\ getFullGroup 1 chat = Done None chat.
Proof.
  repeat (split; [reflexivity |]).
  destruct (grouping_needs_a_group chat 1 3 [2%positive] first eq_refl eq_refl)
    as (Hleader & Hmember & Hfull & _).
  auto.
Defined.

Lemma refreshDataId_album :
  elements album !! 3%positive = Some photo
  /\ refreshDataId refresh 1 3 album
     = Done (Some tt)
         {| elements :=
              <[3%positive := set_media photo (Some (refresh (Plain 1 3) 3))]>
                (elements album);
            items := items album; blocks := blocks album;
            requests := requests album |}.
Proof.
  split; [reflexivity |].
  destruct (refreshDataId_reaches_leader refresh album 3 photo 0 eq_refl)
    as (_ & Hown & _).
  apply (Hown (Plain 1 3) eq_refl).
  intros g [= <-]. reflexivity.
Defined.

Lemma refreshDataId_album_cycle :
  makeGroupMember 3 4 album = Done tt album_member
  /\ makeGroupMember 4 3 album_member = Done tt album_cycle
  /\ forall depth,
       (exists w', refreshDataId refresh depth 3 album_cycle = Done None w')
       /\ (exists w', refreshDataId refresh depth 4 album_cycle = Done None w').
Proof.
  assert (Hmember : makeGroupMember 3 4 album = Done tt album_member)
    by reflexivity.
  assert (Hcycle : makeGroupMember 4 3 album_member = Done tt album_cycle)
    by reflexivity.
  split; [exact Hmember |]. split; [exact Hcycle |].
  apply (refreshDataId_between_two_members refresh album 3 4 photo
           (view 14 (Some (Plain 1 4)) None (-1)
              (Some (Group.mk 5 (Some 4%positive) [])))
           (Group.mk 5 (Some 3%positive) []) (Group.mk 5 (Some 4%positive) [])
           album_member album_cycle);
    first [discriminate | reflexivity | (eexists; reflexivity) | assumption].
Defined.

Lemma getStep_three_steps :
  Intro.is_int 1 /\ Intro.is_int Intro.INT_MAX
  /\ Intro.size [10; 20; 30] <= Intro.INT_MAX
  /\ Intro.getStep [10; 20; 30] 1 = Intro.Read 20
  /\ Intro.getStep [10; 20; 30] Intro.INT_MAX = Intro.AssertionFailed.
Proof.
  assert (Hone : Intro.is_int 1)
    by (unfold Intro.is_int, Intro.INT_MIN, Intro.INT_MAX; lia).
  assert (Hmax : Intro.is_int Intro.INT_MAX)
    by (unfold Intro.is_int, Intro.INT_MIN, Intro.INT_MAX; lia).
  assert (Hsize : Intro.size [10; 20; 30] <= Intro.INT_MAX)
    by (unfold Intro.size, Intro.INT_MAX; simpl; lia).
  split; [exact Hone |]. split; [exact Hmax |]. split; [exact Hsize |]. split.
  - apply (getStep_reads_backwards [10; 20; 30] 1 Hone Hsize).
    unfold Intro.size, Intro.INT_MAX. simpl. split; [lia |].
    split; [lia | reflexivity].
  - apply (getStep_reads_backwards [10; 20; 30] Intro.INT_MAX Hmax Hsize).
    right. unfold Intro.size, Intro.INT_MAX. simpl. lia.
Defined.
End SampleRuns.
